(** * Journal-submission backend: the request handlers of
      [controllers/postController.js] over a model of the document store.

    The controller is a set of asynchronous Express handlers.  Each one
    reads the request, awaits a few Mongoose calls one after the other and
    sends one JSON response; almost all of them wrap their body in
    [try { ... } catch (error) { ... }].

    The embedding follows that shape:
    - documents are records, one module per Mongoose model;
    - a collection is the list of its documents in insertion order (the
      order [find] and [findOne] see);
    - a handler is a computation in a state-and-exception monad over the
      [World]: the store, the schedule of rejections of the awaited calls,
      the id generator, the clock, the random source and the file system;
    - [try_catch] is the handler's [try]/[catch]; an exception that leaves
      the handler is the rejected promise nobody handles. *)

From Stdlib Require Import String Ascii ZArith NArith List Bool Lia DecimalString.
From stdpp Require Import base option list strings.

Local Open Scope string_scope.
Local Open Scope list_scope.

(** ** Documents *)

(** A Mongo [ObjectId] is a 96-bit number; [doc.id] is its hexadecimal
    rendering, so [a.id === b.id] is equality of the numbers. *)
Definition ObjectId := N.
Bind Scope N_scope with ObjectId.

(** Modelled from the spec: the schemas ([models/articleModel.js],
    [journalModel.js], [reviewerModel.js], [authModel.js]) are not among
    the sources.  The records below have the fields of the spec's data
    model that the controller reads or writes. *)

(** One entry of [article.authors]. *)
Record Author := {
  author_name : string;
  author_email : string;
  author_affiliation : string }.

(** One entry of [article.reviewers]. *)
Record Review := {
  review_name : string;
  review_email : string;
  review_status : string;
  review_comments : string }.

(** Modelled from the spec: an Article document. *)
Module Article.
Record t := mk {
  _id : ObjectId;
  userId : ObjectId;
  title : string;
  abstract : string;
  keywords : list string;
  file : string;
  authors : list Author;
  journalId : ObjectId;
  reviewers : list Review;
  createdAt : N }.

Definition set_reviewers (rs : list Review) (a : t) : t :=
  mk (_id a) (userId a) (title a) (abstract a) (keywords a) (file a)
     (authors a) (journalId a) rs (createdAt a).
End Article.

(** Modelled from the spec: a Journal document; [editorId] is null or
    missing until an editor is assigned. *)
Module Journal.
Record t := mk {
  _id : ObjectId;
  title : string;
  description : string;
  editorId : option ObjectId }.

Definition set_editorId (e : option ObjectId) (j : t) : t :=
  mk (_id j) (title j) (description j) e.
End Journal.

(** Modelled from the spec: a Reviewer document. *)
Module Reviewer.
Record t := mk {
  _id : ObjectId;
  firstName : string;
  lastName : string;
  email : string;
  affiliation : string }.
End Reviewer.

(** Modelled from the spec: an Auth document, the identity of a user,
    editor or reviewer. *)
Module Auth.
Record t := mk {
  _id : ObjectId;
  firstName : string;
  middleName : string;
  lastName : string;
  userName : string;
  email : string;
  phoneNumber : string;
  password : string;
  gender : string;
  isEditor : bool;
  isReviewer : bool }.

Definition set_isReviewer (b : bool) (a : t) : t :=
  mk (_id a) (firstName a) (middleName a) (lastName a) (userName a)
     (email a) (phoneNumber a) (password a) (gender a) (isEditor a) b.
End Auth.

(** ** The world a handler runs in *)

(** What an awaited call or a library function may raise. *)
Inductive Error :=
  | StoreError        (* the store rejects the call *)
  | TransportError    (* the mail transport rejects the call *)
  | IOError           (* a file cannot be read or written *)
  | SyntaxError       (* JSON.parse *)
  | TypeError.        (* a property of undefined is read *)

Record Store := mkStore {
  articles : list Article.t;
  journals : list Journal.t;
  reviewers : list Reviewer.t;
  auths : list Auth.t }.

(** A value of [Math.random()], as the handler reads it: the base-36 digits
    that [toString(36)] prints after ["0."] (none when the value is 0) and
    the integer [Math.floor(r * 1000)]. *)
Record Draw := {
  frac36 : list N;
  thousandths : N }.

Definition draw_ok (d : Draw) : bool :=
  forallb (fun c => (c <? 36)%N) (frac36 d)
  && match last (frac36 d) with Some c => negb (c =? 0)%N | None => true end
  && (thousandths d <? 1000)%N.

(** A message handed to the mail transport, and what it answers. *)
Record Mail := {
  mail_from : string;
  mail_to : string;
  mail_subject : string;
  mail_html : string }.

Inductive MailInfo := mkMailInfo (messageId : string).

Record World := mkWorld {
  store : Store;
  (** one entry per awaited call, in order: [Some e] rejects it with [e];
      past the end of the list every call is answered *)
  faults : list (option Error);
  nextId : ObjectId;
  clock : N;
  (** the values [Math.random()] is going to return, in order *)
  random : nat -> Draw;
  (** [public/journals/upload]: file name and content *)
  upload : list (string * string);
  (** [public/journals/zip]: archive name and the files packed in it *)
  zip : list (string * list (string * string));
  (** the pending [setTimeout] callbacks: delay and the file to unlink *)
  timers : list (N * string);
  (** what the transport answers to a message: [None] is a falsy [info] *)
  mailer : Mail -> option MailInfo }.

Definition set_store (s : Store) (w : World) : World :=
  mkWorld s (faults w) (nextId w) (clock w) (random w) (upload w) (zip w)
          (timers w) (mailer w).
Definition set_faults (f : list (option Error)) (w : World) : World :=
  mkWorld (store w) f (nextId w) (clock w) (random w) (upload w) (zip w)
          (timers w) (mailer w).
Definition set_nextId (n : ObjectId) (w : World) : World :=
  mkWorld (store w) (faults w) n (clock w) (random w) (upload w) (zip w)
          (timers w) (mailer w).
Definition set_random (r : nat -> Draw) (w : World) : World :=
  mkWorld (store w) (faults w) (nextId w) (clock w) r (upload w) (zip w)
          (timers w) (mailer w).
Definition set_zip (z : list (string * list (string * string))) (w : World) : World :=
  mkWorld (store w) (faults w) (nextId w) (clock w) (random w) (upload w) z
          (timers w) (mailer w).
Definition set_timers (t : list (N * string)) (w : World) : World :=
  mkWorld (store w) (faults w) (nextId w) (clock w) (random w) (upload w)
          (zip w) t (mailer w).

(** The store answers every call of the run. *)
Definition healthy (w : World) : Prop := faults w = [].

(** ** The monad of handlers *)

Inductive Result (A : Type) :=
  | Ok (a : A)
  | Throw (e : Error).
Arguments Ok {A} a.
Arguments Throw {A} e.

Definition M (A : Type) : Type := World -> Result A * World.

Definition ret {A} (a : A) : M A := fun w => (Ok a, w).
Definition throw {A} (e : Error) : M A := fun w => (Throw e, w).
Definition bind {A B} (m : M A) (k : A -> M B) : M B :=
  fun w => match m w with
           | (Ok a, w') => k a w'
           | (Throw e, w') => (Throw e, w')
           end.
(** [try { m } catch (error) { h error }] *)
Definition try_catch {A} (m : M A) (h : Error -> M A) : M A :=
  fun w => match m w with
           | (Ok a, w') => (Ok a, w')
           | (Throw e, w') => h e w'
           end.
Definition get_world : M World := fun w => (Ok w, w).
Definition modify (f : World -> World) : M unit := fun w => (Ok tt, f w).

Notation "x <- m ;; k" := (bind m (fun x => k))
  (at level 100, m at next level, right associativity).
Notation "m ;;; k" := (bind m (fun _ => k))
  (at level 100, right associativity).

(** An awaited call: the next entry of the schedule says whether it is
    answered or rejected. *)
Definition await : M unit :=
  fun w => match faults w with
           | [] => (Ok tt, w)
           | None :: fs => (Ok tt, set_faults fs w)
           | Some e :: fs => (Throw e, set_faults fs w)
           end.

(** The value of an expression that throws [e] when it has none. *)
Definition defined {A} (e : Error) (o : option A) : M A :=
  match o with Some a => ret a | None => throw e end.

(** ** Mongoose models over the store *)

(** What the controller uses of a Mongoose model: the collection it reads
    and writes and the [_id] of a document. *)
Class Model (D : Type) := {
  doc_id : D -> ObjectId;
  collection : Store -> list D;
  set_collection : list D -> Store -> Store }.

#[export] Instance Article_model : Model Article.t := {|
  doc_id := Article._id;
  collection := articles;
  set_collection l s := mkStore l (journals s) (reviewers s) (auths s) |}.

#[export] Instance Journal_model : Model Journal.t := {|
  doc_id := Journal._id;
  collection := journals;
  set_collection l s := mkStore (articles s) l (reviewers s) (auths s) |}.

#[export] Instance Reviewer_model : Model Reviewer.t := {|
  doc_id := Reviewer._id;
  collection := reviewers;
  set_collection l s := mkStore (articles s) (journals s) l (auths s) |}.

#[export] Instance Auth_model : Model Auth.t := {|
  doc_id := Auth._id;
  collection := auths;
  set_collection l s := mkStore (articles s) (journals s) (reviewers s) l |}.

(** The first document that satisfies [p] is dropped. *)
Fixpoint remove_first {D} (p : D -> bool) (l : list D) : list D :=
  match l with
  | [] => []
  | d :: l' => if p d then l' else d :: remove_first p l'
  end.

(** The first document that satisfies [p] becomes [f] of it. *)
Fixpoint update_first {D} (p : D -> bool) (f : D -> D) (l : list D) : list D :=
  match l with
  | [] => []
  | d :: l' => if p d then f d :: l' else d :: update_first p f l'
  end.

Section Mongoose.
Context {D : Type} `{Model D}.

Definition docs : M (list D) :=
  w <- get_world ;; ret (collection (store w)).

Definition put_docs (l : list D) : M unit :=
  modify (fun w => set_store (set_collection l (store w)) w).

(** The filter [{ _id: i }].  An [_id] is never null, so a null or missing
    [i] matches no document. *)
Definition has_id (i : option ObjectId) (d : D) : bool :=
  match i with
  | Some n => (doc_id d =? n)%N
  | None => false
  end.

(** [await Model.find(filter)] *)
Definition find (p : D -> bool) : M (list D) :=
  await ;;; l <- docs ;; ret (List.filter p l).

(** [await Model.findOne(filter)] *)
Definition findOne (p : D -> bool) : M (option D) :=
  await ;;; l <- docs ;; ret (List.find p l).

(** [await Model.findById(id)] *)
Definition findById (i : option ObjectId) : M (option D) :=
  findOne (has_id i).

Definition findOneAndDelete (p : D -> bool) : M (option D) :=
  await ;;; l <- docs ;;
  match List.find p l with
  | None => ret None
  | Some d => put_docs (remove_first p l) ;;; ret (Some d)
  end.

(** [await Model.findByIdAndDelete(id)]: the deleted document, or null. *)
Definition findByIdAndDelete (i : option ObjectId) : M (option D) :=
  findOneAndDelete (has_id i).

(** [await Model.findOneAndUpdate(filter, update, { new: true })]: the
    document after the update, or null. *)
Definition findOneAndUpdate (p : D -> bool) (f : D -> D) : M (option D) :=
  await ;;; l <- docs ;;
  match List.find p l with
  | None => ret None
  | Some d => put_docs (update_first p f l) ;;; ret (Some (f d))
  end.

(** [await Model.findByIdAndUpdate(id, update, { new: true })] *)
Definition findByIdAndUpdate (i : option ObjectId) (f : D -> D) : M (option D) :=
  findOneAndUpdate (has_id i) f.

(** [await doc.save()]: a document of the collection is written back in
    place, a new one is appended. *)
Definition save (d : D) : M D :=
  await ;;; l <- docs ;;
  (if existsb (has_id (Some (doc_id d))) l
   then put_docs (update_first (has_id (Some (doc_id d))) (fun _ => d) l)
   else put_docs (l ++ [d])) ;;;
  ret d.

(** [await Model.insertMany(docs)] *)
Definition insertMany (ds : list D) : M (list D) :=
  await ;;; l <- docs ;; put_docs (l ++ ds) ;;; ret ds.

End Mongoose.

(** [new Model({...})] gives the document its [_id]. *)
Definition new_id : M ObjectId :=
  w <- get_world ;;
  modify (set_nextId (nextId w + 1)%N) ;;;
  ret (nextId w).

(** [new Date().getTime()] *)
Definition getTime : M N :=
  w <- get_world ;; ret (clock w).

(** [Math.random()] *)
Definition Math_random : M Draw :=
  w <- get_world ;;
  modify (set_random (fun n => random w (S n))) ;;;
  ret (random w 0%nat).

(** ** Strings and arrays of the language *)

Fixpoint map_string (f : ascii -> ascii) (s : string) : string :=
  match s with
  | EmptyString => EmptyString
  | String c s' => String (f c) (map_string f s')
  end.

Definition upper_ascii (c : ascii) : ascii :=
  let n := N_of_ascii c in
  if (97 <=? n)%N && (n <=? 122)%N then ascii_of_N (n - 32) else c.

Definition lower_ascii (c : ascii) : ascii :=
  let n := N_of_ascii c in
  if (65 <=? n)%N && (n <=? 90)%N then ascii_of_N (n + 32) else c.

(** [s.toUpperCase()] and [s.toLowerCase()], on the ASCII letters.  The
    strings of this development are byte strings: for a string of ASCII
    characters these are the language's functions; a letter outside ASCII,
    which the language maps too, has no character here. *)
Definition toUpperCase : string -> string := map_string upper_ascii.
Definition toLowerCase : string -> string := map_string lower_ascii.

(** [s.slice(start)]: a negative [start] counts from the end. *)
Definition slice (start : Z) (s : string) : string :=
  let len := Z.of_nat (String.length s) in
  let from := if (start <? 0)%Z then Z.max (len + start) 0 else Z.min start len in
  substring (Z.to_nat from) (Z.to_nat (len - from)) s.

(** The digit [d] of a base-36 rendering: [0-9] then [a-z]. *)
Definition digit36 (d : N) : ascii :=
  if (d <? 10)%N then ascii_of_N (48 + d) else ascii_of_N (87 + d).

(** [r.toString(36)] for a value [r] of [Math.random()]. *)
Definition toString36 (r : Draw) : string :=
  match frac36 r with
  | [] => "0"
  | ds => "0." +:+ string_of_list_ascii (map digit36 ds)
  end.

(** The decimal rendering of an integer, as string concatenation prints it. *)
Definition Number_toString (n : N) : string :=
  NilZero.string_of_uint (N.to_uint n).

(** [l.findIndex(p)]: the index of the first element that satisfies [p],
    or -1. *)
Definition findIndex {A} (p : A -> bool) (l : list A) : Z :=
  match list_find (fun x => p x = true) l with
  | Some (i, _) => Z.of_nat i
  | None => (-1)%Z
  end.

(** [l[i] = v].  A negative [i] names a property that is no element, and
    the elements stay as they are; an index inside the array replaces the
    element.  (Past the end the language would grow the array; the
    controller only assigns at a result of [findIndex].) *)
Definition array_set {A} (l : list A) (i : Z) (v : A) : list A :=
  if (i <? 0)%Z then l else <[Z.to_nat i := v]> l.

(** ** Requests and responses *)

(** [req.user], set by the authentication middleware. *)
Record User := {
  user_id : ObjectId;
  user_email : string }.

(** An article as [getReviewArticles] returns it: the fields named in
    [select('title createdAt file reviewers')] and the [_id]. *)
Record ReviewArticle := {
  ra_id : ObjectId;
  ra_title : string;
  ra_createdAt : N;
  ra_file : string;
  ra_reviewers : list Review }.

(** The editor as [populate('editorId', 'firstName lastName email')]
    loads it. *)
Record EditorView := {
  ev_id : ObjectId;
  ev_firstName : string;
  ev_lastName : string;
  ev_email : string }.

(** A journal as [getJournalList] returns it. *)
Record JournalView := {
  jv_id : ObjectId;
  jv_title : string;
  jv_description : string;
  jv_editor : option EditorView;
  jv_editorId : option ObjectId }.

(** The values of the fields of a response body. *)
Inductive Value :=
  | VBool (b : bool)
  | VString (s : string)
  | VError (e : Error)
  | VArticle (a : Article.t)
  | VArticles (l : list Article.t)
  | VReviewArticles (l : list ReviewArticle)
  | VJournal (j : Journal.t)
  | VJournals (l : list JournalView)
  | VReviewer (r : Reviewer.t)
  | VReviewers (l : list Reviewer.t)
  | VMailInfo (i : option MailInfo)
  | VCredentials (password userName : string).

(** [res.status(status).json(body)]: the body is the object literal, key
    by key. *)
Record Response := {
  status : N;
  body : list (string * Value) }.

Definition json (st : N) (b : list (string * Value)) : M Response :=
  ret {| status := st; body := b |}.

Definition success (b : bool) : string * Value := ("success", VBool b).
Definition message (s : string) : string * Value := ("message", VString s).
Definition data (v : Value) : string * Value := ("data", v).
Definition error (e : Error) : string * Value := ("error", VError e).

(** ** The handlers *)

Record AddArticleReq := {
  aa_userId : ObjectId;
  aa_title : string;
  aa_abstract : string;
  (** [JSON.parse(req.body.keywords)], [None] when it throws *)
  aa_keywords : option (list string);
  (** [req.file], [None] when nothing was uploaded *)
  aa_file : option string;
  (** [JSON.parse(req.body.authors)], [None] when it throws *)
  aa_authors : option (list Author);
  aa_journalId : ObjectId }.

Definition addArticle (req : AddArticleReq) : M Response :=
  try_catch
    (keywords <- defined SyntaxError (aa_keywords req) ;;
     file <- defined TypeError (aa_file req) ;;
     authors <- defined SyntaxError (aa_authors req) ;;
     i <- new_id ;;
     now <- getTime ;;
     let article :=
       Article.mk i (aa_userId req) (aa_title req) (aa_abstract req) keywords
                  file authors (aa_journalId req) [] now in
     responseData <- save article ;;
     json 201 [success true; message "Article submitted successfully";
               data (VArticle responseData)])
    (fun e =>
     json 404 [success false; message "Article submission failed"; error e]).

Definition owned_by (user : User) (a : Article.t) : bool :=
  (Article.userId a =? user_id user)%N.

Definition authored_by (user : User) (a : Article.t) : bool :=
  existsb (fun author => String.eqb (author_email author) (user_email user))
          (Article.authors a).

Definition getArticle (user : User) : M Response :=
  try_catch
    (articles <- find (owned_by user) ;;
     otherArticles <- find (authored_by user) ;;
     if (length articles =? 0)%nat && (length otherArticles =? 0)%nat
     then json 404 [success false;
                    message "You didn't submit any journal article"]
     else
       json 200 [success true;
                 message "Journal Articles data retrieved successfully";
                 data (VArticles
                   (articles ++
                    List.filter
                      (fun item2 =>
                         negb (existsb
                                 (fun item1 =>
                                    (Article._id item1 =? Article._id item2)%N)
                                 articles))
                      otherArticles))])
    (fun e =>
     json 404 [success false; message "Journal Articles data retrieval failed";
               error e]).

Record AddJournalReq := {
  aj_title : string;
  aj_description : string }.

Definition addJournal (req : AddJournalReq) : M Response :=
  try_catch
    (i <- new_id ;;
     let journal := Journal.mk i (aj_title req) (aj_description req) None in
     responseData <- save journal ;;
     json 201 [success true; message "Journal added successfully";
               data (VJournal responseData)])
    (fun e =>
     json 404 [success false; message "Journal addition failed"; error e]).

Definition deleteJournal (journalId : ObjectId) : M Response :=
  try_catch
    (journalData <- findByIdAndDelete (D:=Journal.t) (Some journalId) ;;
     match journalData with
     | None => json 404 [success false; message "Journal not found"]
     | Some journalData =>
         match Journal.editorId journalData with
         | Some editorId =>
             findByIdAndDelete (D:=Auth.t) (Some editorId) ;;; ret tt
         | None => ret tt
         end ;;;
         json 200 [success true; message "Journal deleted successfully"]
     end)
    (fun e =>
     json 404 [success false; message "Journal deletion failed"; error e]).

(** [Journal.find().populate('editorId', 'firstName lastName email')] and
    the object the handler builds from each journal. *)
Definition populate (auths : list Auth.t) (journal : Journal.t) : JournalView :=
  let editor :=
    match List.find (has_id (Journal.editorId journal)) auths with
    | Some a => Some {| ev_id := Auth._id a; ev_firstName := Auth.firstName a;
                        ev_lastName := Auth.lastName a; ev_email := Auth.email a |}
    | None => None
    end in
  {| jv_id := Journal._id journal;
     jv_title := Journal.title journal;
     jv_description := Journal.description journal;
     jv_editor := editor;
     jv_editorId := match editor with Some e => Some (ev_id e) | None => None end |}.

Definition getJournalList : M Response :=
  try_catch
    (await ;;;
     w <- get_world ;;
     let journalData := journals (store w) in
     json 200 [success true; message "Journal data retrieved successfully";
               data (VJournals (map (populate (auths (store w))) journalData))])
    (fun e =>
     json 404 [success false; message "Journal data retrieval failed"; error e]).

(** [await transporter.sendMail(message)] *)
Definition transporter_sendMail (m : Mail) : M (option MailInfo) :=
  await ;;; w <- get_world ;; ret (mailer w m).

Record SendMailReq := {
  sm_mailFrom : string;
  sm_mailTo : string;
  sm_mailSubject : string;
  sm_mailHtml : string }.

(** [process.env.EMAIL_HOST], the account the transport sends from; its
    value plays no part below. *)
Definition EMAIL_HOST : string := "journal@example.org".

Definition sendMail (req : SendMailReq) : M Response :=
  (* nodemailer.createTransport only builds the transport object *)
  try_catch
    (info <- transporter_sendMail
               {| mail_from := sm_mailFrom req +:+ " <" +:+ EMAIL_HOST +:+ ">";
                  mail_to := sm_mailTo req;
                  mail_subject := sm_mailSubject req;
                  mail_html := sm_mailHtml req |} ;;
     match info with
     | Some _ =>
         json 200 [success true; message "Mail sent successfully";
                   data (VMailInfo info)]
     | None =>
         json 400 [success false; message "Mail sending failed";
                   data (VMailInfo info)]
     end)
    (fun e =>
     json 400 [success false; message "Mail sending failed"; error e]).

Definition getArticleList (journalId : ObjectId) : M Response :=
  try_catch
    (articles <- find (fun a => (Article.journalId a =? journalId)%N) ;;
     if (length articles =? 0)%nat
     then json 404 [success false; message "No journal articles found"]
     else json 200 [success true;
                    message "Journal Articles data retrieved successfully";
                    data (VArticles articles)])
    (fun e =>
     json 404 [success false; message "Journal Articles data retrieval failed";
               error e]).

(** [req.body] of [updateArticle]: the [_id] and the fields to overwrite. *)
Record ArticlePatch := {
  ap_id : ObjectId;
  ap_userId : option ObjectId;
  ap_title : option string;
  ap_abstract : option string;
  ap_keywords : option (list string);
  ap_file : option string;
  ap_authors : option (list Author);
  ap_journalId : option ObjectId;
  ap_reviewers : option (list Review) }.

Definition apply_patch (p : ArticlePatch) (a : Article.t) : Article.t :=
  Article.mk (Article._id a)
             (default (Article.userId a) (ap_userId p))
             (default (Article.title a) (ap_title p))
             (default (Article.abstract a) (ap_abstract p))
             (default (Article.keywords a) (ap_keywords p))
             (default (Article.file a) (ap_file p))
             (default (Article.authors a) (ap_authors p))
             (default (Article.journalId a) (ap_journalId p))
             (default (Article.reviewers a) (ap_reviewers p))
             (Article.createdAt a).

Definition updateArticle (req : ArticlePatch) : M Response :=
  try_catch
    (article <- findByIdAndUpdate (Some (ap_id req)) (apply_patch req) ;;
     match article with
     | None => json 404 [success false; message "Journal article not found"]
     | Some article =>
         json 200 [success true; message "Journal article updated successfully";
                   data (VArticle article)]
     end)
    (fun e =>
     json 404 [success false; message "Journal article update failed"; error e]).

Record UpdateReviewReq := {
  ur_id : ObjectId;
  (** [req.body.reviewers]; the handler reads its element 0.  An absent
      array makes that read throw.  From an empty array the code reads
      undefined and stores it in the caller's place; the reviewers of this
      model have no such entry, and the read of an empty array is taken to
      throw as well: the statements on [updateReview] are about requests
      that carry the element. *)
  ur_reviewers : list Review }.

Definition updateReview (user : User) (req : UpdateReviewReq) : M Response :=
  try_catch
    (article <- findById (D:=Article.t) (Some (ur_id req)) ;;
     match article with
     | None => json 404 [success false; message "Journal article not found"]
     | Some article =>
         let reviewerIndex :=
           findIndex (fun reviewer =>
                        String.eqb (review_email reviewer) (user_email user))
                     (Article.reviewers article) in
         patch <- defined TypeError (head (ur_reviewers req)) ;;
         let article :=
           Article.set_reviewers
             (array_set (Article.reviewers article) reviewerIndex patch)
             article in
         save article ;;;
         json 200 [success true; message "Journal article updated successfully"]
     end)
    (fun e =>
     json 404 [success false; message "Journal article update failed"; error e]).

Record ReviewerReq := {
  rr_firstName : string;
  rr_lastName : string;
  rr_email : string;
  rr_affiliation : string }.

Definition addReviewer (req : ReviewerReq) : M Response :=
  reviewerData <-
    findOne (fun r => String.eqb (Reviewer.email r) (rr_email req)) ;;
  match reviewerData with
  | Some _ => json 400 [success false; message "Reviewer already exists"]
  | None =>
      try_catch
        (i <- new_id ;;
         let reviewer :=
           Reviewer.mk i (rr_firstName req) (rr_lastName req) (rr_email req)
                       (rr_affiliation req) in
         responseData <- save reviewer ;;
         findOneAndUpdate
           (fun a => String.eqb (Auth.email a) (rr_email req))
           (Auth.set_isReviewer true) ;;;
         json 201 [success true; message "Reviewer added successfully";
                   data (VReviewer responseData)])
        (fun e =>
         json 404 [success false; message "Reviewer addition failed"; error e])
  end.

(** The documents [insertMany] builds from the request, each with a new
    [_id]. *)
Fixpoint new_reviewers (reqs : list ReviewerReq) : M (list Reviewer.t) :=
  match reqs with
  | [] => ret []
  | req :: reqs' =>
      i <- new_id ;;
      rest <- new_reviewers reqs' ;;
      ret (Reviewer.mk i (rr_firstName req) (rr_lastName req) (rr_email req)
                       (rr_affiliation req) :: rest)
  end.

Definition addBulkReviewer (reqs : list ReviewerReq) : M Response :=
  try_catch
    (ds <- new_reviewers reqs ;;
     responseData <- insertMany ds ;;
     json 201 [success true; message "Reviewers added successfully";
               data (VReviewers responseData)])
    (fun e =>
     json 404 [success false; message "Reviewers addition failed"; error e]).

Definition getReviewerList : M Response :=
  try_catch
    (reviewerData <- find (fun _ : Reviewer.t => true) ;;
     json 200 [success true; message "Reviewer data retrieved successfully";
               data (VReviewers reviewerData)])
    (fun e =>
     json 404 [success false; message "Reviewer data retrieval failed"; error e]).

Definition reviewed_by (user : User) (reviewer : Review) : bool :=
  String.eqb (review_email reviewer) (user_email user).

Definition getReviewArticles (user : User) : M Response :=
  try_catch
    (articles <-
       find (fun a => existsb (reviewed_by user) (Article.reviewers a)) ;;
     if (length articles =? 0)%nat
     then json 404 [success false; message "No review articles found"]
     else
       let filteredArticles :=
         map (fun article =>
                {| ra_id := Article._id article;
                   ra_title := Article.title article;
                   ra_createdAt := Article.createdAt article;
                   ra_file := Article.file article;
                   ra_reviewers :=
                     List.filter (reviewed_by user) (Article.reviewers article) |})
             articles in
       json 200 [success true;
                 message "Journal Articles data retrieved successfully";
                 data (VReviewArticles filteredArticles)])
    (fun e =>
     json 404 [success false; message "Journal Articles data retrieval failed";
               error e]).

Definition deleteReviewer (reviewerId : ObjectId) : M Response :=
  try_catch
    (reviewerData <- findByIdAndDelete (D:=Reviewer.t) (Some reviewerId) ;;
     match reviewerData with
     | None => json 404 [success false; message "Reviewer not found"]
     | Some reviewerData =>
         findOneAndUpdate
           (fun a => String.eqb (Auth.email a) (Reviewer.email reviewerData))
           (Auth.set_isReviewer false) ;;;
         json 200 [success true; message "Reviewer deleted successfully"]
     end)
    (fun e =>
     json 404 [success false; message "Reviewer deletion failed"; error e]).

(** [fs.readFileSync(`public/journals/upload/${file}`)] *)
Definition readFileSync (name : string) : M string :=
  w <- get_world ;;
  defined IOError
    (option_map snd (List.find (fun f => String.eqb (fst f) name) (upload w))).

(** [files.forEach(file => zip.file(file, fs.readFileSync(...)))], for a
    request that names each file once: one entry per name.  ([zip.file]
    replaces the entry of a name it already holds.) *)
Fixpoint read_files (files : list string) : M (list (string * string)) :=
  match files with
  | [] => ret []
  | file :: files' =>
      content <- readFileSync file ;;
      rest <- read_files files' ;;
      ret ((file, content) :: rest)
  end.

(** [createZip].  The body of the [try] reads the files, starts the stream
    to the staging directory and registers the timer.  The stream runs
    after the body has returned: its 'finish' event sends the response, and
    a write that fails raises an 'error' event that has no listener. *)
Definition createZip (files : list string) : M Response :=
  started <-
    try_catch
      (packed <- read_files files ;;
       filename <- getTime ;;
       modify (fun w =>
                 set_timers
                   (timers w ++
                    [(60000%N, "public/journals/zip/" +:+ Number_toString filename
                                 +:+ ".zip")]) w) ;;;
       ret (inr (filename, packed)))
      (fun e =>
       r <- json 404 [success false; message "Zip file creation failed"; error e] ;;
       ret (inl r)) ;;
  match started with
  | inl r => ret r
  | inr (filename, packed) =>
      await ;;;
      modify (fun w =>
                set_zip (zip w ++ [(Number_toString filename +:+ ".zip", packed)]) w) ;;;
      json 200 [success true; message "Zip file created successfully";
                ("filename", VString (Number_toString filename +:+ ".zip"))]
  end.

Record AddEditorReq := {
  ae_journalId : ObjectId;
  (** [req.body.firstName], [None] when the field is missing *)
  ae_firstName : option string;
  ae_middleName : string;
  ae_lastName : string;
  ae_email : string;
  ae_phoneNumber : string;
  ae_gender : string }.

(** [Math.random().toString(36).toUpperCase().slice(-10)] *)
Definition generate_password (r : Draw) : string :=
  slice (-10) (toUpperCase (toString36 r)).

(** [firstName.toLowerCase() + Math.floor(Math.random() * 1000)] *)
Definition generate_userName (firstName : string) (r : Draw) : string :=
  toLowerCase firstName +:+ Number_toString (thousandths r).

Definition addEditor (req : AddEditorReq) : M Response :=
  try_catch
    (user <- findOne (fun a => String.eqb (Auth.email a) (ae_email req)) ;;
     match user with
     | Some _ => json 400 [success false; message "Editor already exists"]
     | None =>
         userPhone <-
           findOne (fun a => String.eqb (Auth.phoneNumber a) (ae_phoneNumber req)) ;;
         match userPhone with
         | Some _ =>
             json 400 [success false; message "Phone number already exists"]
         | None =>
             r1 <- Math_random ;;
             let password := generate_password r1 in
             firstName <- defined TypeError (ae_firstName req) ;;
             r2 <- Math_random ;;
             let userName := generate_userName firstName r2 in
             i <- new_id ;;
             let editor :=
               Auth.mk i firstName (ae_middleName req) (ae_lastName req)
                       userName (ae_email req) (ae_phoneNumber req) password
                       (ae_gender req) true false in
             save editor ;;;
             findByIdAndUpdate (Some (ae_journalId req))
                               (Journal.set_editorId (Some (Auth._id editor))) ;;;
             json 201 [success true; message "Editor added successfully";
                       data (VCredentials password userName)]
         end
     end)
    (fun e =>
     json 404 [success false; message "Editor addition failed"; error e]).

Definition removeEditor (journalId : ObjectId) : M Response :=
  try_catch
    (journal <- findById (D:=Journal.t) (Some journalId) ;;
     match journal with
     | None => json 404 [success false; message "Journal not found"]
     | Some journal =>
         findByIdAndDelete (D:=Auth.t) (Journal.editorId journal) ;;;
         findByIdAndUpdate (Some journalId) (Journal.set_editorId None) ;;;
         json 200 [success true; message "Editor removed successfully"]
     end)
    (fun e =>
     json 404 [success false; message "Editor removal failed"; error e]).

(** The exported handlers, each with its request. *)
Inductive Call :=
  | AddArticle (req : AddArticleReq)
  | GetArticle (user : User)
  | SendMail (req : SendMailReq)
  | GetJournalList
  | AddJournal (req : AddJournalReq)
  | DeleteJournal (journalId : ObjectId)
  | GetArticleList (journalId : ObjectId)
  | UpdateArticle (req : ArticlePatch)
  | AddReviewer (req : ReviewerReq)
  | AddBulkReviewer (reqs : list ReviewerReq)
  | GetReviewerList
  | GetReviewArticles (user : User)
  | UpdateReview (user : User) (req : UpdateReviewReq)
  | DeleteReviewer (reviewerId : ObjectId)
  | CreateZip (files : list string)
  | AddEditor (req : AddEditorReq)
  | RemoveEditor (journalId : ObjectId).

Definition handle (c : Call) : M Response :=
  match c with
  | AddArticle req => addArticle req
  | GetArticle user => getArticle user
  | SendMail req => sendMail req
  | GetJournalList => getJournalList
  | AddJournal req => addJournal req
  | DeleteJournal journalId => deleteJournal journalId
  | GetArticleList journalId => getArticleList journalId
  | UpdateArticle req => updateArticle req
  | AddReviewer req => addReviewer req
  | AddBulkReviewer reqs => addBulkReviewer reqs
  | GetReviewerList => getReviewerList
  | GetReviewArticles user => getReviewArticles user
  | UpdateReview user req => updateReview user req
  | DeleteReviewer reviewerId => deleteReviewer reviewerId
  | CreateZip files => createZip files
  | AddEditor req => addEditor req
  | RemoveEditor journalId => removeEditor journalId
  end.

(** * Properties *)

(** ** Running a handler against a store that answers *)

Section Run.
Context {A B : Type}.

Lemma bind_ok (m : M A) (k : A -> M B) w a w' :
  m w = (Ok a, w') -> bind m k w = k a w'.
Proof. unfold bind. now intros ->. Qed.

Lemma bind_throw (m : M A) (k : A -> M B) w e w' :
  m w = (Throw e, w') -> bind m k w = (Throw e, w').
Proof. unfold bind. now intros ->. Qed.

Lemma try_ok (m : M A) h w a w' :
  m w = (Ok a, w') -> try_catch m h w = (Ok a, w').
Proof. unfold try_catch. now intros ->. Qed.

Lemma try_throw (m : M A) h w e w' :
  m w = (Throw e, w') -> try_catch m h w = h e w'.
Proof. unfold try_catch. now intros ->. Qed.

End Run.

Lemma await_healthy w : healthy w -> await w = (Ok tt, w).
Proof. unfold healthy, await. now intros ->. Qed.

Lemma healthy_set_store s w : healthy w -> healthy (set_store s w).
Proof. trivial. Qed.

Section RunMongoose.
Context {D : Type} `{Model D}.

Definition with_docs (l : list D) (w : World) : World :=
  set_store (set_collection l (store w)) w.

Lemma find_healthy (p : D -> bool) w :
  healthy w -> find p w = (Ok (List.filter p (collection (store w))), w).
Proof. intros Hw. unfold find. now rewrite (bind_ok _ _ _ _ _ (await_healthy w Hw)). Qed.

Lemma findOne_healthy (p : D -> bool) w :
  healthy w -> findOne p w = (Ok (List.find p (collection (store w))), w).
Proof. intros Hw. unfold findOne. now rewrite (bind_ok _ _ _ _ _ (await_healthy w Hw)). Qed.

Lemma findOneAndDelete_healthy (p : D -> bool) w :
  healthy w ->
  findOneAndDelete p w =
  match List.find p (collection (store w)) with
  | None => (Ok None, w)
  | Some d => (Ok (Some d), with_docs (remove_first p (collection (store w))) w)
  end.
Proof.
  intros Hw. unfold findOneAndDelete.
  rewrite (bind_ok _ _ _ _ _ (await_healthy w Hw)).
  unfold bind, docs, get_world, ret. simpl.
  now destruct (List.find p (collection (store w))).
Qed.

Lemma findOneAndUpdate_healthy (p : D -> bool) f w :
  healthy w ->
  findOneAndUpdate p f w =
  match List.find p (collection (store w)) with
  | None => (Ok None, w)
  | Some d => (Ok (Some (f d)), with_docs (update_first p f (collection (store w))) w)
  end.
Proof.
  intros Hw. unfold findOneAndUpdate.
  rewrite (bind_ok _ _ _ _ _ (await_healthy w Hw)).
  unfold bind, docs, get_world, ret. simpl.
  now destruct (List.find p (collection (store w))).
Qed.

Lemma save_healthy (d : D) w :
  healthy w ->
  save d w =
  (Ok d,
   with_docs
     (if existsb (has_id (Some (doc_id d))) (collection (store w))
      then update_first (has_id (Some (doc_id d))) (fun _ => d) (collection (store w))
      else collection (store w) ++ [d]) w).
Proof.
  intros Hw. unfold save.
  rewrite (bind_ok _ _ _ _ _ (await_healthy w Hw)).
  unfold bind, docs, get_world, ret. simpl.
  now destruct (existsb _ _).
Qed.

End RunMongoose.

(** ** Lists of documents *)

Lemma elem_of_filter_bool {A} (p : A -> bool) (l : list A) x :
  x ∈ List.filter p l <-> x ∈ l /\ p x = true.
Proof. rewrite !list_elem_of_In. apply filter_In. Qed.

Lemma existsb_elem_of {A} (p : A -> bool) (l : list A) :
  existsb p l = true <-> exists x, x ∈ l /\ p x = true.
Proof.
  rewrite existsb_exists. split; intros (x & Hx & Hp); exists x;
    (split; [now apply list_elem_of_In | exact Hp]).
Qed.

Lemma elem_of_map_ids {A B} (f : A -> B) (l : list A) b :
  b ∈ map f l <-> exists x, x ∈ l /\ f x = b.
Proof.
  rewrite list_elem_of_In, in_map_iff. split; intros (x & H1 & H2); exists x.
  - split; [now apply list_elem_of_In | exact H1].
  - split; [exact H2 | now apply list_elem_of_In].
Qed.

Lemma NoDup_ids_filter {A B} (f : A -> B) (p : A -> bool) (l : list A) :
  NoDup (map f l) -> NoDup (map f (List.filter p l)).
Proof.
  induction l as [|a l IH]; simpl; [trivial|].
  rewrite NoDup_cons. intros [Ha Hl]. destruct (p a); simpl; [|auto].
  apply NoDup_cons. split; [|auto].
  intros (x & Hx & Hfx)%elem_of_map_ids. apply Ha, elem_of_map_ids.
  exists x. split; [|exact Hfx]. now apply elem_of_filter_bool in Hx.
Qed.

(** Within a collection an [_id] names one document. *)
Lemma NoDup_ids_inj {A B} (f : A -> B) (l : list A) x y :
  NoDup (map f l) -> x ∈ l -> y ∈ l -> f x = f y -> x = y.
Proof.
  induction l as [|a l IH]; simpl; [intros _ Hx; inversion Hx|].
  rewrite NoDup_cons. intros [Ha Hl] Hx Hy Hf.
  apply elem_of_cons in Hx, Hy.
  destruct Hx as [->|Hx], Hy as [->|Hy]; auto.
  - exfalso. apply Ha, elem_of_map_ids. exists y. auto.
  - exfalso. apply Ha, elem_of_map_ids. exists x. auto.
Qed.

Lemma NoDup_ids_app {A B} (f : A -> B) (l1 l2 : list A) :
  NoDup (map f l1) -> NoDup (map f l2) ->
  (forall x y, x ∈ l1 -> y ∈ l2 -> f x <> f y) ->
  NoDup (map f (l1 ++ l2)).
Proof.
  intros H1 H2 Hd. rewrite map_app. apply NoDup_app. split; [exact H1|].
  split; [|exact H2].
  intros b (x & Hx & <-)%elem_of_map_ids (y & Hy & Hxy)%elem_of_map_ids.
  now apply (Hd x y).
Qed.

(** ** C1: the articles of a user *)

(** The article is the user's own, or names the user among its authors. *)
Definition visible_to (user : User) (a : Article.t) : Prop :=
  Article.userId a = user_id user \/
  exists author, author ∈ Article.authors a /\ author_email author = user_email user.

Definition owned (user : User) (w : World) : list Article.t :=
  List.filter (owned_by user) (articles (store w)).

Definition authored (user : User) (w : World) : list Article.t :=
  List.filter (authored_by user) (articles (store w)).

(** The empty-result response of [getArticle]. *)
Definition no_article : Response :=
  {| status := 404;
     body := [success false; message "You didn't submit any journal article"] |}.

Definition articles_found (l : list Article.t) : Response :=
  {| status := 200;
     body := [success true; message "Journal Articles data retrieved successfully";
              data (VArticles l)] |}.

Lemma owned_by_spec user a :
  owned_by user a = true <-> Article.userId a = user_id user.
Proof. apply N.eqb_eq. Qed.

Lemma authored_by_spec user a :
  authored_by user a = true <->
  exists author, author ∈ Article.authors a /\ author_email author = user_email user.
Proof.
  unfold authored_by. rewrite existsb_elem_of.
  split; intros (x & Hx & He); exists x; (split; [exact Hx|]);
    now apply String.eqb_eq.
Qed.

Lemma visible_to_spec user a :
  visible_to user a <-> owned_by user a = true \/ authored_by user a = true.
Proof. unfold visible_to. now rewrite owned_by_spec, authored_by_spec. Qed.

(** What [getArticle] answers when the store answers both queries. *)
Lemma getArticle_run user w :
  healthy w ->
  getArticle user w =
  (Ok (if (length (owned user w) =? 0)%nat && (length (authored user w) =? 0)%nat
       then no_article
       else articles_found
              (owned user w ++
               List.filter
                 (fun item2 =>
                    negb (existsb
                            (fun item1 => (Article._id item1 =? Article._id item2)%N)
                            (owned user w)))
                 (authored user w))), w).
Proof.
  intros Hw. unfold getArticle. apply try_ok.
  rewrite (bind_ok _ _ _ _ _ (find_healthy _ w Hw)).
  rewrite (bind_ok _ _ _ _ _ (find_healthy _ w Hw)).
  fold (owned user w) (authored user w).
  now destruct (_ && _).
Qed.

Lemma length_zero_nil {A} (l : list A) : (length l =? 0)%nat = true <-> l = [].
Proof. destruct l; simpl; split; intros; congruence. Qed.

(** C1. For a store that answers and whose article ids are distinct,
    [getArticle] answers the empty-result 404 exactly when neither query
    finds an article; otherwise it answers 200 with a list that holds
    exactly the articles owned by the user or naming the user's email among
    their authors, each id once, the owned articles first. *)
Theorem getArticle_lists_visible_articles (user : User) (w : World) :
  healthy w ->
  NoDup (map Article._id (articles (store w))) ->
  (getArticle user w = (Ok no_article, w) <->
   owned user w = [] /\ authored user w = []) /\
  (~ (owned user w = [] /\ authored user w = []) ->
   exists l,
     getArticle user w = (Ok (articles_found l), w) /\
     (forall a, a ∈ l <-> a ∈ articles (store w) /\ visible_to user a) /\
     NoDup (map Article._id l) /\
     exists others,
       l = owned user w ++ others /\
       forall a, a ∈ others -> Article.userId a <> user_id user).
Proof.
  intros Hw Hids. rewrite (getArticle_run user w Hw).
  destruct ((length (owned user w) =? 0)%nat && (length (authored user w) =? 0)%nat)
    eqn:E.
  - apply andb_true_iff in E. rewrite !length_zero_nil in E.
    split; [tauto|]. intros Hn. now destruct Hn.
  - assert (Hne : ~ (owned user w = [] /\ authored user w = [])).
    { rewrite <- !length_zero_nil, <- andb_true_iff, E. discriminate. }
    split; [split; [discriminate | tauto]|]. intros _.
    eexists. split; [reflexivity|]. split; [|split].
    + intros a. rewrite elem_of_app, !elem_of_filter_bool, visible_to_spec.
      unfold owned, authored. rewrite !elem_of_filter_bool.
      split.
      * intros [[Ha Ho]|[[Ha Hau] _]]; auto.
      * intros [Ha Hv].
        destruct (owned_by user a) eqn:Ho; [left; auto|].
        destruct Hv as [Hv|Hv]; [discriminate|].
        right. split; [auto|].
        apply negb_true_iff, not_true_is_false.
        intros (x & Hx & Hid)%existsb_elem_of.
        apply elem_of_filter_bool in Hx as [Hx Hxo]. apply N.eqb_eq in Hid.
        assert (x = a) by (eapply NoDup_ids_inj; eauto). congruence.
    + apply NoDup_ids_app.
      * now apply NoDup_ids_filter.
      * now do 2 apply NoDup_ids_filter.
      * intros x y Hx [Hy Hn]%elem_of_filter_bool Hid.
        apply negb_true_iff in Hn.
        assert (Ht : existsb (fun item1 => (Article._id item1 =? Article._id y)%N)
                             (owned user w) = true).
        { apply existsb_elem_of. exists x. split; [exact Hx|now apply N.eqb_eq]. }
        congruence.
    + eexists. split; [reflexivity|].
      intros a [[Ha Hau]%elem_of_filter_bool Hn]%elem_of_filter_bool Ho.
      apply negb_true_iff in Hn.
      assert (Ht : existsb (fun item1 => (Article._id item1 =? Article._id a)%N)
                           (owned user w) = true).
      { apply existsb_elem_of. exists a. split; [|apply N.eqb_refl].
        apply elem_of_filter_bool. split; [exact Ha|now apply owned_by_spec]. }
      congruence.
Qed.

(** ** A sample world *)

Definition author (e : string) : Author :=
  {| author_name := "A. Author"; author_email := e; author_affiliation := "X" |}.

Definition review (e st : string) : Review :=
  {| review_name := "R. Reviewer"; review_email := e; review_status := st;
     review_comments := "" |}.

Definition sample_article (i u : ObjectId) (emails : list string)
    (rs : list Review) : Article.t :=
  Article.mk i u "Title" "Abstract" ["x"; "y"] "paper.pdf" (map author emails)
             10 rs 0.

Definition sample_store : Store :=
  {| articles :=
       [sample_article 1 7 ["a@x.com"]
          [review "s@x.com" "pending"; review "r@x.com" "pending";
           review "r@x.com" "late"];
        sample_article 2 8 ["a@x.com"; "b@x.com"] [];
        sample_article 3 7 [] [review "s@x.com" "pending"];
        sample_article 4 9 ["b@x.com"] []];
     journals := [Journal.mk 10 "Journal" "First" (Some 20%N);
                  Journal.mk 11 "Annals" "Second" None];
     reviewers := [Reviewer.mk 30 "Rita" "R" "r@x.com" "X";
                   Reviewer.mk 31 "Sam" "S" "s@x.com" "Y"];
     auths := [Auth.mk 20 "Ed" "" "Itor" "ed12" "ed@x.com" "111" "SECRET" "m"
                       true false;
               Auth.mk 21 "Rita" "" "R" "rita" "r@x.com" "222" "pw" "f"
                       false true] |}.

(** [Math.random()] returning 0.5 every time: ["0.i"] in base 36. *)
Definition half : Draw := {| frac36 := [18%N]; thousandths := 500 |}.

Definition sample : World :=
  {| store := sample_store; faults := []; nextId := 100; clock := 1700000000000;
     random := fun _ => half;
     upload := [("a.txt", "aaa"); ("b.txt", "bbb")]; zip := []; timers := [];
     mailer := fun _ => Some (mkMailInfo "id-1") |}.

Definition alice : User := {| user_id := 7; user_email := "a@x.com" |}.
Definition rita : User := {| user_id := 21; user_email := "r@x.com" |}.
Definition nobody : User := {| user_id := 99; user_email := "n@x.com" |}.

Lemma sample_healthy : healthy sample.
Proof. reflexivity. Qed.

(** In the sample, alice owns articles 1 and 3 and is an author of
    articles 1 and 2: she gets 1, 3, 2, article 1 once and the owned ones
    first.  Nobody's queries are both empty. *)
Lemma getArticle_lists_visible_articles_witness :
  healthy sample /\
  NoDup (map Article._id (articles (store sample))) /\
  ~ (owned alice sample = [] /\ authored alice sample = []) /\
  (exists l,
     getArticle alice sample = (Ok (articles_found l), sample) /\
     map Article._id l = [1; 3; 2]%N /\
     (forall a, a ∈ l <-> a ∈ articles (store sample) /\ visible_to alice a) /\
     NoDup (map Article._id l) /\
     exists others,
       l = owned alice sample ++ others /\
       forall a, a ∈ others -> Article.userId a <> user_id alice) /\
  (getArticle nobody sample = (Ok no_article, sample) <->
   owned nobody sample = [] /\ authored nobody sample = []).
Proof.
  assert (Hids : NoDup (map Article._id (articles (store sample)))).
  { apply (bool_decide_unpack _). vm_compute. exact I. }
  assert (Hsome : ~ (owned alice sample = [] /\ authored alice sample = [])).
  { intros [Howned _]. discriminate Howned. }
  split; [reflexivity|]. split; [exact Hids|]. split; [exact Hsome|]. split.
  - destruct (proj2 (getArticle_lists_visible_articles alice sample eq_refl Hids)
                    Hsome)
      as (l & Hrun & Hvisible & Honce & Hfirst).
    exists l. split; [exact Hrun|]. split; [|auto].
    assert (Hl : Ok (articles_found l) =
                 fst (getArticle alice sample)) by now rewrite Hrun.
    vm_compute in Hl. injection Hl as ->. reflexivity.
  - exact (proj1 (getArticle_lists_visible_articles nobody sample eq_refl Hids)).
Defined.

(** ** C2: a reviewer updates the own review *)

Lemma findIndex_first {A} (p : A -> bool) (l : list A) i x :
  l !! i = Some x -> p x = true ->
  (forall j y, l !! j = Some y -> j < i -> p y = false) ->
  findIndex p l = Z.of_nat i.
Proof.
  intros Hi Hp Hleast. unfold findIndex.
  assert (Hf : list_find (fun x => p x = true) l = Some (i, x)).
  { apply list_find_Some. split; [exact Hi|]. split; [exact Hp|].
    intros j y Hj Hlt. rewrite (Hleast j y Hj Hlt). discriminate. }
  now rewrite Hf.
Qed.

Lemma findIndex_none {A} (p : A -> bool) (l : list A) :
  (forall x, x ∈ l -> p x = false) -> findIndex p l = (-1)%Z.
Proof.
  intros Hno. unfold findIndex.
  assert (Hf : list_find (fun x => p x = true) l = None).
  { apply list_find_None, Forall_forall. intros x Hx. rewrite (Hno x Hx).
    discriminate. }
  now rewrite Hf.
Qed.

(** A result of [findIndex] is -1 or an index of the array. *)
Lemma findIndex_range {A} (p : A -> bool) (l : list A) :
  (-1 <= findIndex p l < Z.of_nat (length l))%Z.
Proof.
  unfold findIndex. destruct (list_find _ l) as [[i x]|] eqn:E; [|lia].
  apply list_find_Some in E as [Hi _]. apply lookup_lt_Some in Hi. lia.
Qed.

Lemma array_set_index {A} (l : list A) (i : nat) v :
  array_set l (Z.of_nat i) v = <[i := v]> l.
Proof.
  unfold array_set. destruct (Z.ltb_spec (Z.of_nat i) 0); [lia|].
  now rewrite Nat2Z.id.
Qed.

Lemma find_has_id {D} `{Model D} (i : ObjectId) (l : list D) d :
  List.find (has_id (Some i)) l = Some d -> d ∈ l /\ doc_id d = i.
Proof.
  intros [Hin Hid]%find_some. split; [now apply list_elem_of_In|].
  now apply N.eqb_eq.
Qed.

Lemma update_first_found {D} (p : D -> bool) (g : D -> D) (l : list D) d :
  List.find p l = Some d ->
  update_first p (fun _ => g d) l = update_first p g l.
Proof.
  induction l as [|a l IH]; simpl; [discriminate|].
  destruct (p a); [now intros [= ->]|]. intros Hf. now rewrite IH.
Qed.

Lemma update_first_fixed {D} (p : D -> bool) (g : D -> D) (l : list D) d :
  List.find p l = Some d -> g d = d -> update_first p g l = l.
Proof.
  induction l as [|a l IH]; simpl; [discriminate|].
  destruct (p a); [intros [= ->] ->; trivial|].
  intros Hf Hg. now rewrite IH.
Qed.

Lemma existsb_find {D} (p : D -> bool) (l : list D) d :
  List.find p l = Some d -> existsb p l = true.
Proof.
  intros [Hin Hp]%find_some. apply existsb_exists. eauto.
Qed.

(** Writing a collection back as it is leaves the world as it is. *)
Lemma with_articles_same w : with_docs (articles (store w)) w = w.
Proof. now destruct w as [[] ? ? ? ? ? ? ? ?]. Qed.

(** The caller's entry is the one at [i]: it carries the caller's email
    and no earlier entry does. *)
Definition first_review_of (user : User) (rs : list Review) (i : nat) : Prop :=
  (exists r, rs !! i = Some r /\ review_email r = user_email user) /\
  forall j r, rs !! j = Some r -> j < i -> review_email r <> user_email user.

Definition article_not_found : Response :=
  {| status := 404;
     body := [success false; message "Journal article not found"] |}.

Definition review_updated : Response :=
  {| status := 200;
     body := [success true; message "Journal article updated successfully"] |}.

Lemma updateReview_run user req patch rest w article :
  healthy w ->
  ur_reviewers req = patch :: rest ->
  List.find (has_id (Some (ur_id req))) (articles (store w)) = Some article ->
  updateReview user req w =
  (Ok review_updated,
   with_docs
     (update_first (has_id (Some (ur_id req)))
        (Article.set_reviewers
           (array_set (Article.reviewers article)
              (findIndex (reviewed_by user) (Article.reviewers article)) patch))
        (articles (store w))) w).
Proof.
  intros Hw Hreq Hfind. unfold updateReview. 
  erewrite try_ok; [reflexivity|].
  unfold findById. rewrite (bind_ok _ _ _ _ _ (findOne_healthy _ w Hw)).
  change (collection (store w)) with (articles (store w)). rewrite Hfind.
  rewrite Hreq. simpl head. unfold defined.
  rewrite (bind_ok _ _ w patch w eq_refl).
  rewrite (bind_ok _ _ _ _ _ (save_healthy _ w Hw)).
  unfold json, ret, review_updated. f_equal. f_equal.
  change (collection (store w)) with (articles (store w)).
  destruct (find_has_id _ _ _ Hfind) as [Hin Hid]. simpl in Hid.
  change (doc_id (Article.set_reviewers ?rs article)) with (Article._id article).
  rewrite Hid, (existsb_find _ _ _ Hfind).
  now rewrite (update_first_found _ (Article.set_reviewers _) _ _ Hfind).
Qed.

(** C2. With a store that answers and a request that carries the review
    patch: an [_id] that resolves to no article gives the 404 "not found"
    response and leaves the world as it was; otherwise the handler answers
    200 and writes the article back with the first entry whose email is the
    caller's replaced by the patch, or, when no entry has the caller's
    email, with the reviewers as they were (the world does not change). *)
Theorem updateReview_replaces_first_match (user : User) (req : UpdateReviewReq)
    (patch : Review) (rest : list Review) (w : World) :
  healthy w ->
  ur_reviewers req = patch :: rest ->
  (List.find (has_id (Some (ur_id req))) (articles (store w)) = None ->
   updateReview user req w = (Ok article_not_found, w)) /\
  (forall article,
     List.find (has_id (Some (ur_id req))) (articles (store w)) = Some article ->
     (forall i,
        first_review_of user (Article.reviewers article) i ->
        updateReview user req w =
        (Ok review_updated,
         with_docs
           (update_first (has_id (Some (ur_id req)))
              (Article.set_reviewers (<[i := patch]> (Article.reviewers article)))
              (articles (store w))) w)) /\
     ((forall r, r ∈ Article.reviewers article ->
                 review_email r <> user_email user) ->
      updateReview user req w = (Ok review_updated, w))).
Proof.
  intros Hw Hreq. split.
  - intros Hnone. unfold updateReview. erewrite try_ok; [reflexivity|].
    unfold findById. rewrite (bind_ok _ _ _ _ _ (findOne_healthy _ w Hw)).
    change (collection (store w)) with (articles (store w)). now rewrite Hnone.
  - intros article Hfind.
    rewrite (updateReview_run user req patch rest w article Hw Hreq Hfind).
    split.
    + intros i [(r & Hi & Hr) Hleast].
      rewrite (findIndex_first _ _ i r Hi); [now rewrite array_set_index| |].
      * now apply String.eqb_eq.
      * intros j y Hj Hlt. apply String.eqb_neq. eauto.
    + intros Hno. rewrite findIndex_none.
      * unfold array_set. simpl.
        rewrite (update_first_fixed _ _ _ article Hfind);
          [now rewrite with_articles_same|now destruct article].
      * intros x Hx. apply String.eqb_neq. auto.
Qed.

Definition rita_review : UpdateReviewReq :=
  {| ur_id := 1; ur_reviewers := [review "r@x.com" "accepted"] |}.

Lemma updateReview_replaces_first_match_witness :
  healthy sample /\
  ur_reviewers rita_review = [review "r@x.com" "accepted"] /\
  updateReview rita rita_review sample =
  (Ok review_updated,
   with_docs
     [sample_article 1 7 ["a@x.com"]
        [review "s@x.com" "pending"; review "r@x.com" "accepted";
         review "r@x.com" "late"];
      sample_article 2 8 ["a@x.com"; "b@x.com"] [];
      sample_article 3 7 [] [review "s@x.com" "pending"];
      sample_article 4 9 ["b@x.com"] []] sample).
Proof.
  split; [reflexivity|]. split; [reflexivity|].
  destruct (updateReview_replaces_first_match rita rita_review
              (review "r@x.com" "accepted") [] sample eq_refl eq_refl)
    as [_ Hfound].
  destruct (Hfound _ eq_refl) as [Hfirst _].
  apply (Hfirst 1%nat). split.
  - eexists. split; reflexivity.
  - intros [|j] r Hj Hlt; [|lia]. injection Hj as <-. discriminate.
Defined.

(** ** C4: deleting a journal *)

Lemma remove_first_not_found {D} (p : D -> bool) (l : list D) :
  List.find p l = None -> remove_first p l = l.
Proof.
  induction l as [|a l IH]; simpl; [trivial|].
  destruct (p a); [discriminate|]. intros Hf. now rewrite IH.
Qed.

Lemma elem_of_remove_first {D} (p : D -> bool) (l : list D) x :
  x ∈ remove_first p l -> x ∈ l.
Proof.
  induction l as [|a l IH]; simpl; [trivial|].
  destruct (p a); rewrite !elem_of_cons; [auto|]. intros [->|Hx]; auto.
Qed.

(** With distinct ids, the document is gone once its first occurrence is. *)
Lemma remove_first_gone {D} `{Model D} (i : ObjectId) (l : list D) x :
  NoDup (map doc_id l) -> x ∈ remove_first (has_id (Some i)) l -> doc_id x <> i.
Proof.
  induction l as [|a l IH]; simpl; [intros _ Hx; inversion Hx|].
  rewrite NoDup_cons. intros [Ha Hl].
  destruct (N.eqb_spec (doc_id a) i) as [Hai|Hai].
  - intros Hx Hxi. apply Ha, elem_of_map_ids. exists x. split; [exact Hx|congruence].
  - rewrite elem_of_cons. intros [->|Hx]; auto.
Qed.

(** The other documents stay. *)
Lemma remove_first_others {D} `{Model D} (i : ObjectId) (l : list D) x :
  x ∈ l -> doc_id x <> i -> x ∈ remove_first (has_id (Some i)) l.
Proof.
  induction l as [|a l IH]; simpl; [trivial|].
  rewrite elem_of_cons. intros [->|Hx] Hxi.
  - destruct (N.eqb_spec (doc_id a) i); [contradiction|]. apply elem_of_cons. auto.
  - destruct (N.eqb_spec (doc_id a) i); [exact Hx|]. apply elem_of_cons. auto.
Qed.

Definition journal_not_found : Response :=
  {| status := 404; body := [success false; message "Journal not found"] |}.

Definition journal_deleted : Response :=
  {| status := 200;
     body := [success true; message "Journal deleted successfully"] |}.

Lemma deleteJournal_run journalId w J :
  healthy w ->
  List.find (has_id (Some journalId)) (journals (store w)) = Some J ->
  deleteJournal journalId w =
  (Ok journal_deleted,
   set_store
     {| articles := articles (store w);
        journals := remove_first (has_id (Some journalId)) (journals (store w));
        reviewers := reviewers (store w);
        auths := match Journal.editorId J with
                 | Some e => remove_first (has_id (Some e)) (auths (store w))
                 | None => auths (store w)
                 end |} w).
Proof.
  intros Hw Hfind. unfold deleteJournal, try_catch, bind, findByIdAndDelete.
  rewrite (findOneAndDelete_healthy (D:=Journal.t) _ w Hw).
  change (collection (store w)) with (journals (store w)). rewrite Hfind.
  destruct (Journal.editorId J) as [e|]; [|reflexivity].
  set (w1 := with_docs _ w).
  rewrite (findOneAndDelete_healthy (D:=Auth.t) _ w1 Hw).
  change (collection (store w1)) with (auths (store w)).
  destruct (List.find _ (auths (store w))) eqn:Ha; [reflexivity|].
  now rewrite (remove_first_not_found _ _ Ha).
Qed.

(** C4. With a store that answers and distinct journal ids: an id that
    resolves to no journal gives the 404 "not found" response and changes
    nothing; an id that resolves to [J] gives the 200 response, leaves no
    journal with that id while keeping every other journal, removes the
    Auth record whose [_id] is [J]'s editor when [J] has one, leaves the
    Auth records as they were when it has none, and touches neither the
    articles nor the reviewers. *)
Theorem deleteJournal_cascades_to_editor (journalId : ObjectId) (w : World) :
  healthy w ->
  NoDup (map Journal._id (journals (store w))) ->
  (List.find (has_id (Some journalId)) (journals (store w)) = None ->
   deleteJournal journalId w = (Ok journal_not_found, w)) /\
  (forall J,
     List.find (has_id (Some journalId)) (journals (store w)) = Some J ->
     exists w',
       deleteJournal journalId w = (Ok journal_deleted, w') /\
       (forall j, j ∈ journals (store w') <->
                  j ∈ journals (store w) /\ Journal._id j <> journalId) /\
       auths (store w') =
         match Journal.editorId J with
         | Some e => remove_first (has_id (Some e)) (auths (store w))
         | None => auths (store w)
         end /\
       articles (store w') = articles (store w) /\
       reviewers (store w') = reviewers (store w)).
Proof.
  intros Hw Hids. split.
  - intros Hnone. unfold deleteJournal, try_catch, bind, findByIdAndDelete.
    rewrite (findOneAndDelete_healthy (D:=Journal.t) _ w Hw).
    change (collection (store w)) with (journals (store w)). now rewrite Hnone.
  - intros J Hfind. eexists. split; [exact (deleteJournal_run _ _ _ Hw Hfind)|].
    simpl. split; [|auto]. intros j. split.
    + intros Hj. split; [exact (elem_of_remove_first _ _ _ Hj)|].
      exact (remove_first_gone (D:=Journal.t) _ _ _ Hids Hj).
    + intros [Hj Hne]. exact (remove_first_others (D:=Journal.t) _ _ _ Hj Hne).
Qed.

Lemma deleteJournal_cascades_to_editor_witness :
  healthy sample /\
  NoDup (map Journal._id (journals (store sample))) /\
  exists w',
    deleteJournal 10 sample = (Ok journal_deleted, w') /\
    auths (store w') = remove_first (has_id (Some 20%N)) (auths (store sample)).
Proof.
  assert (Hids : NoDup (map Journal._id (journals (store sample)))).
  { apply (bool_decide_unpack _). vm_compute. exact I. }
  split; [reflexivity|]. split; [exact Hids|].
  destruct (deleteJournal_cascades_to_editor 10 sample eq_refl Hids) as [_ Hfound].
  destruct (Hfound _ eq_refl) as (w' & Hrun & _ & Hauths & _).
  exists w'. split; [exact Hrun | exact Hauths].
Defined.

(** ** C7: deleting a reviewer *)

Lemma update_first_at {D} (p : D -> bool) (g : D -> D) (l : list D) i x :
  l !! i = Some x -> p x = true ->
  (forall j y, l !! j = Some y -> j < i -> p y = false) ->
  update_first p g l = <[i := g x]> l.
Proof.
  revert i. induction l as [|a l IH]; intros i Hi Hp Hleast; [discriminate|].
  simpl. destruct i as [|i].
  - injection Hi as ->. now rewrite Hp.
  - rewrite (Hleast 0 a eq_refl) by lia. simpl. f_equal.
    apply IH; [exact Hi|exact Hp|].
    intros j y Hj Hlt. apply (Hleast (S j) y Hj). lia.
Qed.

Lemma update_first_no_match {D} (p : D -> bool) (g : D -> D) (l : list D) :
  (forall x, x ∈ l -> p x = false) -> update_first p g l = l.
Proof.
  induction l as [|a l IH]; simpl; [trivial|]. intros Hno.
  rewrite (Hno a) by (apply elem_of_cons; auto). f_equal.
  apply IH. intros x Hx. apply Hno, elem_of_cons. auto.
Qed.

Lemma update_first_not_found {D} (p : D -> bool) (g : D -> D) (l : list D) :
  List.find p l = None -> update_first p g l = l.
Proof.
  intros Hf. apply update_first_no_match. intros x Hx.
  apply (find_none _ _ Hf). now apply list_elem_of_In.
Qed.

Definition reviewer_not_found : Response :=
  {| status := 404; body := [success false; message "Reviewer not found"] |}.

Definition reviewer_deleted : Response :=
  {| status := 200;
     body := [success true; message "Reviewer deleted successfully"] |}.

(** The Auth record at [k] is the first one with the email. *)
Definition first_auth_of (email : string) (l : list Auth.t) (k : nat) (a : Auth.t) : Prop :=
  l !! k = Some a /\ Auth.email a = email /\
  forall j b, l !! j = Some b -> j < k -> Auth.email b <> email.

Lemma deleteReviewer_run reviewerId w R :
  healthy w ->
  List.find (has_id (Some reviewerId)) (reviewers (store w)) = Some R ->
  deleteReviewer reviewerId w =
  (Ok reviewer_deleted,
   set_store
     {| articles := articles (store w);
        journals := journals (store w);
        reviewers := remove_first (has_id (Some reviewerId)) (reviewers (store w));
        auths := update_first
                   (fun a => String.eqb (Auth.email a) (Reviewer.email R))
                   (Auth.set_isReviewer false) (auths (store w)) |} w).
Proof.
  intros Hw Hfind. unfold deleteReviewer, try_catch, bind, findByIdAndDelete.
  rewrite (findOneAndDelete_healthy (D:=Reviewer.t) _ w Hw).
  change (collection (store w)) with (reviewers (store w)). rewrite Hfind.
  set (w1 := with_docs _ w).
  rewrite (findOneAndUpdate_healthy (D:=Auth.t) _ _ w1 Hw).
  change (collection (store w1)) with (auths (store w)).
  destruct (List.find _ (auths (store w))) eqn:Ha; [reflexivity|].
  now rewrite (update_first_not_found _ _ _ Ha).
Qed.

(** C7. With a store that answers and distinct reviewer ids: an id that
    resolves to no reviewer gives the 404 "not found" response and changes
    nothing; an id that resolves to [R] gives the 200 response, leaves no
    reviewer with that id while keeping the others, and the Auth records
    are as before except that the first one whose email is [R]'s has
    [isReviewer] false: that record stays in its place with its other
    fields as they were, and when no Auth record has the email none
    changes.  Articles and journals are not touched. *)
Theorem deleteReviewer_clears_flag (reviewerId : ObjectId) (w : World) :
  healthy w ->
  NoDup (map Reviewer._id (reviewers (store w))) ->
  (List.find (has_id (Some reviewerId)) (reviewers (store w)) = None ->
   deleteReviewer reviewerId w = (Ok reviewer_not_found, w)) /\
  (forall R,
     List.find (has_id (Some reviewerId)) (reviewers (store w)) = Some R ->
     exists w',
       deleteReviewer reviewerId w = (Ok reviewer_deleted, w') /\
       (forall r, r ∈ reviewers (store w') <->
                  r ∈ reviewers (store w) /\ Reviewer._id r <> reviewerId) /\
       (forall k a,
          first_auth_of (Reviewer.email R) (auths (store w)) k a ->
          auths (store w') =
          <[k := Auth.mk (Auth._id a) (Auth.firstName a) (Auth.middleName a)
                         (Auth.lastName a) (Auth.userName a) (Auth.email a)
                         (Auth.phoneNumber a) (Auth.password a) (Auth.gender a)
                         (Auth.isEditor a) false]> (auths (store w))) /\
       ((forall a, a ∈ auths (store w) -> Auth.email a <> Reviewer.email R) ->
        auths (store w') = auths (store w)) /\
       length (auths (store w')) = length (auths (store w)) /\
       articles (store w') = articles (store w) /\
       journals (store w') = journals (store w)).
Proof.
  intros Hw Hids. split.
  - intros Hnone. unfold deleteReviewer, try_catch, bind, findByIdAndDelete.
    rewrite (findOneAndDelete_healthy (D:=Reviewer.t) _ w Hw).
    change (collection (store w)) with (reviewers (store w)). now rewrite Hnone.
  - intros R Hfind. eexists. split; [exact (deleteReviewer_run _ _ _ Hw Hfind)|].
    simpl. split; [|split; [|split; [|split; [|auto]]]].
    + intros r. split.
      * intros Hr. split; [exact (elem_of_remove_first _ _ _ Hr)|].
        exact (remove_first_gone (D:=Reviewer.t) _ _ _ Hids Hr).
      * intros [Hr Hne]. exact (remove_first_others (D:=Reviewer.t) _ _ _ Hr Hne).
    + intros k a (Hk & He & Hleast).
      change (Auth.mk _ _ _ _ _ _ _ _ _ _ false) with (Auth.set_isReviewer false a).
      apply (update_first_at _ _ _ k a Hk); [now apply String.eqb_eq|].
      intros j b Hj Hlt. apply String.eqb_neq. eauto.
    + intros Hno. apply update_first_no_match.
      intros a Ha. apply String.eqb_neq. auto.
    + clear. induction (auths (store w)) as [|a l IH]; simpl; [trivial|].
      destruct (String.eqb _ _); simpl; auto.
Qed.

Lemma deleteReviewer_clears_flag_witness :
  healthy sample /\
  NoDup (map Reviewer._id (reviewers (store sample))) /\
  exists w',
    deleteReviewer 30 sample = (Ok reviewer_deleted, w') /\
    auths (store w') =
    [Auth.mk 20 "Ed" "" "Itor" "ed12" "ed@x.com" "111" "SECRET" "m" true false;
     Auth.mk 21 "Rita" "" "R" "rita" "r@x.com" "222" "pw" "f" false false].
Proof.
  assert (Hids : NoDup (map Reviewer._id (reviewers (store sample)))).
  { apply (bool_decide_unpack _). vm_compute. exact I. }
  split; [reflexivity|]. split; [exact Hids|].
  destruct (deleteReviewer_clears_flag 30 sample eq_refl Hids) as [_ Hfound].
  destruct (Hfound _ eq_refl) as (w' & Hrun & _ & Hflag & _).
  exists w'. split; [exact Hrun|].
  rewrite (Hflag 1%nat (Auth.mk 21 "Rita" "" "R" "rita" "r@x.com" "222" "pw" "f"
                                false true)); [reflexivity|].
  split; [reflexivity|]. split; [reflexivity|].
  intros [|j] b Hj Hlt; [|lia]. injection Hj as <-. discriminate.
Defined.

(** ** C10: removing the editor of a journal that has none *)

Definition editor_removed : Response :=
  {| status := 200;
     body := [success true; message "Editor removed successfully"] |}.

(** A null id deletes nothing. *)
Lemma remove_first_null {D} `{Model D} (l : list D) :
  remove_first (has_id None) l = l.
Proof. induction l as [|a l IH]; simpl; [trivial|now rewrite IH]. Qed.

Lemma removeEditor_run journalId w J :
  healthy w ->
  List.find (has_id (Some journalId)) (journals (store w)) = Some J ->
  removeEditor journalId w =
  (Ok editor_removed,
   set_store
     {| articles := articles (store w);
        journals := update_first (has_id (Some journalId))
                      (Journal.set_editorId None) (journals (store w));
        reviewers := reviewers (store w);
        auths := remove_first (has_id (Journal.editorId J)) (auths (store w)) |} w).
Proof.
  intros Hw Hfind. unfold removeEditor, try_catch, bind, findById.
  rewrite (findOne_healthy (D:=Journal.t) _ w Hw).
  change (collection (store w)) with (journals (store w)). rewrite Hfind.
  unfold findByIdAndDelete. rewrite (findOneAndDelete_healthy (D:=Auth.t) _ w Hw).
  change (collection (store w)) with (auths (store w)).
  unfold findByIdAndUpdate.
  destruct (List.find (has_id (Journal.editorId J)) (auths (store w))) eqn:Ha.
  - set (w1 := with_docs _ w).
    rewrite (findOneAndUpdate_healthy (D:=Journal.t) _ _ w1 Hw).
    change (collection (store w1)) with (journals (store w)). now rewrite Hfind.
  - rewrite (findOneAndUpdate_healthy (D:=Journal.t) _ _ w Hw).
    change (collection (store w)) with (journals (store w)). rewrite Hfind.
    now rewrite (remove_first_not_found _ _ Ha).
Qed.

(** C10. With a store that answers, [removeEditor] fails only when the id
    resolves to no journal (the 404 "not found" response, nothing changed);
    for a journal that exists it answers the 200 success response, and when
    that journal has no editor no Auth record is deleted and the journal
    keeps its null [editorId]: the world is as it was. *)
Theorem removeEditor_without_editor (journalId : ObjectId) (w : World) :
  healthy w ->
  (List.find (has_id (Some journalId)) (journals (store w)) = None /\
   removeEditor journalId w = (Ok journal_not_found, w)) \/
  (exists J w',
     List.find (has_id (Some journalId)) (journals (store w)) = Some J /\
     removeEditor journalId w = (Ok editor_removed, w') /\
     (Journal.editorId J = None -> w' = w)).
Proof.
  intros Hw.
  destruct (List.find (has_id (Some journalId)) (journals (store w))) as [J|] eqn:Hfind.
  - right. exists J. eexists. split; [reflexivity|].
    split; [exact (removeEditor_run _ _ _ Hw Hfind)|].
    intros Hnone. rewrite Hnone, remove_first_null.
    rewrite (update_first_fixed _ _ _ J Hfind).
    + now destruct w as [[] ? ? ? ? ? ? ? ?].
    + destruct J; simpl in *. now subst.
  - left. split; [reflexivity|].
    unfold removeEditor, try_catch, bind, findById.
    rewrite (findOne_healthy (D:=Journal.t) _ w Hw).
    change (collection (store w)) with (journals (store w)). now rewrite Hfind.
Qed.

Lemma removeEditor_without_editor_witness :
  healthy sample /\ removeEditor 11 sample = (Ok editor_removed, sample).
Proof.
  split; [reflexivity|].
  destruct (removeEditor_without_editor 11 sample eq_refl)
    as [[Hnone _]|(J & w' & Hfind & Hrun & Hsame)].
  - discriminate Hnone.
  - assert (HJ : Journal.editorId J = None).
    { vm_compute in Hfind. injection Hfind as <-. reflexivity. }
    rewrite Hrun. f_equal. exact (Hsame HJ).
Defined.

(** ** C5: assigning an editor whose email or phone number is taken *)

Definition editor_exists : Response :=
  {| status := 400; body := [success false; message "Editor already exists"] |}.

Definition phone_exists : Response :=
  {| status := 400;
     body := [success false; message "Phone number already exists"] |}.

(** Some Auth record has the email or the phone number of the request. *)
Definition taken (req : AddEditorReq) (s : Store) : Prop :=
  exists a, a ∈ auths s /\
            (Auth.email a = ae_email req \/ Auth.phoneNumber a = ae_phoneNumber req).

Lemma taken_found req s :
  taken req s ->
  List.find (fun a => String.eqb (Auth.email a) (ae_email req)) (auths s) = None ->
  exists a,
    List.find (fun a => String.eqb (Auth.phoneNumber a) (ae_phoneNumber req))
              (auths s) = Some a.
Proof.
  intros (a & Ha & Hm) Hnone.
  destruct (List.find (fun a => String.eqb (Auth.phoneNumber a) _) (auths s))
    as [b|] eqn:Hp; [eauto|].
  apply list_elem_of_In in Ha.
  pose proof (find_none _ _ Hnone a Ha) as He.
  pose proof (find_none _ _ Hp a Ha) as Hph. simpl in He, Hph.
  apply String.eqb_neq in He, Hph. tauto.
Qed.

(** C5. When an Auth record already has the email or the phone number of
    the request, [addEditor] answers a failure and the store after the call
    is the store before it, whatever the store answers to the lookups: no
    Auth record is created and no journal is modified.  With a store that
    answers, the response is the 400 conflict response ("Editor already
    exists" for the email, else "Phone number already exists") and the
    world is unchanged. *)
Theorem addEditor_conflict_creates_nothing (req : AddEditorReq) (w : World) :
  taken req (store w) ->
  (exists r w',
     addEditor req w = (Ok r, w') /\ store w' = store w /\
     head (body r) = Some (success false) /\
     (status r = 400%N \/ status r = 404%N)) /\
  (healthy w ->
   addEditor req w = (Ok editor_exists, w) \/
   addEditor req w = (Ok phone_exists, w)).
Proof.
  intros Htaken.
  pose proof (taken_found req (store w) Htaken) as Hphone.
  unfold addEditor, try_catch, bind, findOne, await, docs, get_world, json, ret,
    healthy.
  destruct w as [s fl ni ck rd up zp tm ml]. simpl in Htaken, Hphone |- *.
  destruct (List.find (fun a => String.eqb (Auth.email a) _) (auths s))
    as [a|] eqn:He.
  - destruct fl as [|[e|] fl]; simpl; rewrite ?He; split;
      try (intros ?; discriminate); eauto 10.
  - destruct (Hphone eq_refl) as [b Hb].
    destruct fl as [|[e|] [|[e'|] fl]]; simpl; rewrite ?He; simpl; rewrite ?Hb;
      split; try (intros ?; discriminate); eauto 10.
Qed.

Definition taken_email : AddEditorReq :=
  {| ae_journalId := 11; ae_firstName := Some "Eve"; ae_middleName := "";
     ae_lastName := "E"; ae_email := "ed@x.com"; ae_phoneNumber := "999";
     ae_gender := "f" |}.

Lemma addEditor_conflict_creates_nothing_witness :
  taken taken_email (store sample) /\
  exists r w',
    addEditor taken_email sample = (Ok r, w') /\ store w' = store sample /\
    status r = 400%N.
Proof.
  assert (Ht : taken taken_email (store sample)).
  { eexists. split; [apply list_elem_of_here|]. left. reflexivity. }
  split; [exact Ht|].
  destruct (addEditor_conflict_creates_nothing taken_email sample Ht)
    as [_ Hrun].
  destruct (Hrun eq_refl) as [H|H]; rewrite H; eauto.
Defined.

(** ** C6: the articles a reviewer has to review *)

Definition no_review_article : Response :=
  {| status := 404;
     body := [success false; message "No review articles found"] |}.

Definition review_articles_found (l : list ReviewArticle) : Response :=
  {| status := 200;
     body := [success true; message "Journal Articles data retrieved successfully";
              data (VReviewArticles l)] |}.

(** Some entry of the article's reviewers has the user's email. *)
Definition reviews (user : User) (a : Article.t) : Prop :=
  exists r, r ∈ Article.reviewers a /\ review_email r = user_email user.

Lemma reviewed_by_spec user r :
  reviewed_by user r = true <-> review_email r = user_email user.
Proof. apply String.eqb_eq. Qed.

Lemma reviews_spec user a :
  existsb (reviewed_by user) (Article.reviewers a) = true <-> reviews user a.
Proof.
  rewrite existsb_elem_of. unfold reviews.
  split; intros (r & Hr & He); exists r; (split; [exact Hr|]);
    now apply reviewed_by_spec.
Qed.

(** C6. With a store that answers, [getReviewArticles] answers the
    empty-result 404 exactly when no article has a reviewer entry with the
    user's email.  Otherwise it answers 200 with one element per such
    article and no other element, and the reviewers of each element are
    exactly the entries of its article whose email is the user's: no entry
    with another email is returned. *)
Theorem getReviewArticles_own_entries_only (user : User) (w : World) :
  healthy w ->
  (getReviewArticles user w = (Ok no_review_article, w) <->
   forall a, a ∈ articles (store w) -> ~ reviews user a) /\
  ((exists a, a ∈ articles (store w) /\ reviews user a) ->
   exists l,
     getReviewArticles user w = (Ok (review_articles_found l), w) /\
     (forall ra, ra ∈ l ->
        exists a,
          a ∈ articles (store w) /\ reviews user a /\
          ra_id ra = Article._id a /\ ra_title ra = Article.title a /\
          ra_createdAt ra = Article.createdAt a /\ ra_file ra = Article.file a /\
          forall r, r ∈ ra_reviewers ra <->
                    r ∈ Article.reviewers a /\ review_email r = user_email user) /\
     (forall a, a ∈ articles (store w) -> reviews user a ->
        exists ra, ra ∈ l /\ ra_id ra = Article._id a) /\
     (forall ra r, ra ∈ l -> r ∈ ra_reviewers ra ->
                   review_email r = user_email user)).
Proof.
  intros Hw. unfold getReviewArticles, try_catch, bind.
  rewrite (find_healthy (D:=Article.t) _ w Hw).
  change (collection (store w)) with (articles (store w)).
  set (found := List.filter _ (articles (store w))).
  assert (Hfound : forall a, a ∈ found <-> a ∈ articles (store w) /\ reviews user a).
  { intros a. unfold found. rewrite elem_of_filter_bool.
    now rewrite <- reviews_spec. }
  destruct found as [|a0 found'] eqn:E.
  - simpl. split.
    + split; [|trivial]. intros _ a Ha Hr.
      assert (Hin : a ∈ []) by (apply Hfound; auto). inversion Hin.
    + intros (a & Ha & Hr).
      assert (Hin : a ∈ []) by (apply Hfound; auto). inversion Hin.
  - rewrite <- E in *. replace (length found =? 0)%nat with false by now rewrite E.
    split.
    + split; [discriminate|]. intros Hno. exfalso.
      apply (Hno a0); apply Hfound; rewrite E; apply list_elem_of_here.
    + intros _. eexists. split; [reflexivity|].
      split; [|split].
      * intros ra (a & Ha & <-)%elem_of_map_ids. apply Hfound in Ha as [Ha Hr].
        exists a. simpl. repeat (split; [now auto|]).
        intros r. now rewrite elem_of_filter_bool, reviewed_by_spec.
      * intros a Ha Hr. eexists. split.
        -- apply elem_of_map_ids. exists a. split; [|reflexivity].
           apply Hfound. auto.
        -- reflexivity.
      * intros ra r (a & Ha & <-)%elem_of_map_ids. simpl.
        rewrite elem_of_filter_bool, reviewed_by_spec. tauto.
Qed.

Lemma getReviewArticles_own_entries_only_witness :
  healthy sample /\
  exists l,
    getReviewArticles rita sample = (Ok (review_articles_found l), sample) /\
    forall ra r, ra ∈ l -> r ∈ ra_reviewers ra -> review_email r = "r@x.com".
Proof.
  split; [reflexivity|].
  destruct (getReviewArticles_own_entries_only rita sample eq_refl) as [_ Hsome].
  destruct Hsome as (l & Hrun & _ & _ & Hown).
  - eexists. split; [apply list_elem_of_here|].
    exists (review "r@x.com" "pending"). split; [|reflexivity].
    apply list_elem_of_further, list_elem_of_here.
  - exists l. split; [exact Hrun | exact Hown].
Defined.

(** ** What a handler answers, whatever the store does *)

(** Every result of [m] satisfies [Q]. *)
Definition post {A} (Q : A -> Prop) (m : M A) : Prop :=
  forall w a w', m w = (Ok a, w') -> Q a.

Section Post.
Context {A B : Type}.

Lemma post_ret (Q : A -> Prop) a : Q a -> post Q (ret a).
Proof. intros HQ w a' w' [= <- _]. exact HQ. Qed.

Lemma post_throw (Q : A -> Prop) e : post Q (throw e).
Proof. intros w a w' [=]. Qed.

Lemma post_bind (Q1 : A -> Prop) (Q : B -> Prop) (m : M A) (k : A -> M B) :
  post Q1 m -> (forall a, Q1 a -> post Q (k a)) -> post Q (bind m k).
Proof.
  intros Hm Hk w b w'. unfold bind.
  destruct (m w) as [[a|e] w1] eqn:E; [|discriminate].
  apply (Hk a (Hm _ _ _ E)).
Qed.

Lemma post_bind_any (Q : B -> Prop) (m : M A) (k : A -> M B) :
  (forall a, post Q (k a)) -> post Q (bind m k).
Proof. intros Hk. apply (post_bind (fun _ => True)); [easy|auto]. Qed.

Lemma post_try (Q : A -> Prop) (m : M A) (h : Error -> M A) :
  post Q m -> (forall e, post Q (h e)) -> post Q (try_catch m h).
Proof.
  intros Hm Hh w a w'. unfold try_catch.
  destruct (m w) as [[a1|e] w1] eqn:E.
  - intros [= <- _]. exact (Hm _ _ _ E).
  - apply Hh.
Qed.

End Post.

Lemma post_json (Q : Response -> Prop) st b :
  Q {| status := st; body := b |} -> post Q (json st b).
Proof. apply post_ret. Qed.

(** Every run of [m] ends with a response: no exception leaves it. *)
Definition responds (m : M Response) : Prop :=
  forall w, exists r w', m w = (Ok r, w').

Lemma responds_json st b : responds (json st b).
Proof. intros w. now eexists _, _. Qed.

(** A handler whose whole body is inside [try], with a [catch] that sends
    a response, always responds. *)
Lemma responds_try (m : M Response) (h : Error -> M Response) :
  (forall e, responds (h e)) -> responds (try_catch m h).
Proof.
  intros Hh w. unfold try_catch. destruct (m w) as [[r|e] w1].
  - now eexists _, _.
  - apply Hh.
Qed.

(** ** C9: the response envelope *)

Fixpoint field (k : string) (b : list (string * Value)) : option Value :=
  match b with
  | [] => None
  | (k', v) :: b' => if String.eqb k' k then Some v else field k b'
  end.

Definition envelope_keys : list string := ["success"; "message"; "data"; "error"].

(** The uniform envelope: a boolean [success], a string [message], no key
    besides [data] and [error], and a status that fits [success]. *)
Definition envelope (r : Response) : bool :=
  forallb (fun kv => existsb (String.eqb (fst kv)) envelope_keys) (body r)
  && match field "success" (body r), field "message" (body r) with
     | Some (VBool true), Some (VString _) =>
         (status r =? 200)%N || (status r =? 201)%N
     | Some (VBool false), Some (VString _) =>
         (status r =? 400)%N || (status r =? 404)%N
     | _, _ => false
     end.

(** The success response of [createZip]. *)
Definition zip_created (name : string) : Response :=
  {| status := 200;
     body := [success true; message "Zip file created successfully";
              ("filename", VString name)] |}.

Ltac post_envelope :=
  repeat (cbv beta zeta;
          match goal with
          | |- post _ (try_catch _ _) => apply post_try; [|intros ?]
          | |- post _ (bind _ _) => apply post_bind_any; intros ?
          | |- post _ (json _ _) => apply post_json; reflexivity
          | |- post _ (match ?x with _ => _ end) => destruct x
          end).

Lemma createZip_post files :
  post (fun r => envelope r = true \/ exists name, r = zip_created name)
       (createZip files).
Proof.
  unfold createZip.
  apply (post_bind
           (fun started : Response + N * list (string * string) =>
              match started with
              | inl r => envelope r = true
              | inr _ => True
              end)).
  - apply post_try.
    + repeat (apply post_bind_any; intros ?). now apply post_ret.
    + intros e. apply (post_bind (fun r => envelope r = true)).
      * now apply post_json.
      * intros r Hr. now apply post_ret.
  - intros [r|[filename packed]] Hs.
    + apply post_ret. now left.
    + repeat (apply post_bind_any; intros ?). apply post_json. right. now eexists.
Qed.

Lemma post_weaken {A} (Q Q' : A -> Prop) (m : M A) :
  (forall a, Q a -> Q' a) -> post Q m -> post Q' m.
Proof. intros HQ Hm w a w' E. exact (HQ _ (Hm _ _ _ E)). Qed.

(** Every handler but [createZip] only sends envelopes. *)
Lemma handle_post_envelope c :
  (forall files, c <> CreateZip files) ->
  post (fun r => envelope r = true) (handle c).
Proof.
  intros Hc.
  destruct c; simpl;
    try (exfalso; eapply Hc; reflexivity);
    unfold addArticle, getArticle, sendMail, getJournalList, addJournal,
      deleteJournal, getArticleList, updateArticle, addReviewer, addBulkReviewer,
      getReviewerList, getReviewArticles, updateReview, deleteReviewer, addEditor,
      removeEditor;
    post_envelope.
Qed.

(** C9, as stated, fails: the success response of [createZip] carries the
    archive name under a key [filename] of its own, which the envelope
    does not have. *)
Lemma createZip_success_is_no_envelope :
  ~ (forall c w r w', handle c w = (Ok r, w') -> envelope r = true).
Proof.
  intros Hall.
  pose proof (Hall (CreateZip ["a.txt"; "b.txt"]) sample
                   (zip_created "1700000000000.zip")
                   (snd (handle (CreateZip ["a.txt"; "b.txt"]) sample))) as Hzip.
  discriminate (Hzip eq_refl).
Qed.

(** C9, amended. Every response a handler sends is the uniform envelope
    (boolean [success], string [message], optional [data] and [error], and
    status 200 or 201 with [success] true, 400 or 404 with [success]
    false), except the success response of [createZip], which is status
    200 with [success] true, a [message] and the archive name under
    [filename]. *)
Theorem responses_are_envelopes_except_zip (c : Call) (w : World)
    (r : Response) (w' : World) :
  handle c w = (Ok r, w') ->
  envelope r = true \/
  exists files name, c = CreateZip files /\ r = zip_created name.
Proof.
  intros E.
  assert (Hc : (exists files, c = CreateZip files) \/
               forall files, c <> CreateZip files).
  { destruct c; try (right; discriminate). left. eauto. }
  destruct Hc as [[files ->]|Hc].
  - destruct (createZip_post files _ _ _ E) as [He|[name ->]]; eauto.
  - left. exact (handle_post_envelope c Hc _ _ _ E).
Qed.

Lemma responses_are_envelopes_except_zip_witness :
  handle (DeleteJournal 10) sample =
    (Ok journal_deleted, snd (handle (DeleteJournal 10) sample)) /\
  (envelope journal_deleted = true \/
   exists files name,
     DeleteJournal 10 = CreateZip files /\ journal_deleted = zip_created name).
Proof.
  assert (Hrun : handle (DeleteJournal 10) sample =
                 (Ok journal_deleted, snd (handle (DeleteJournal 10) sample)))
    by reflexivity.
  split; [exact Hrun|].
  exact (responses_are_envelopes_except_zip _ _ _ _ Hrun).
Defined.

(** ** C3: errors and the handler's own [catch] *)

(** The handlers whose awaited calls all sit inside the [try]. *)
Definition wraps_all (c : Call) : bool :=
  match c with
  | AddReviewer _ | CreateZip _ => false
  | _ => true
  end.

(** Every handler but [addReviewer] and [createZip] sends a response on
    every run, whichever calls the store rejects: no error leaves it. *)
Lemma wrapped_handler_responds (c : Call) :
  wraps_all c = true -> responds (handle c).
Proof.
  destruct c; simpl; try discriminate; intros _;
    apply responds_try; intros e; apply responds_json.
Qed.

(** An error that a wrapped handler catches gives a failure response:
    whatever it sends is an envelope, so [success] false comes with 400 or
    404. *)
Lemma wrapped_handler_envelope (c : Call) (w : World) :
  wraps_all c = true ->
  exists r w', handle c w = (Ok r, w') /\ envelope r = true.
Proof.
  intros Hc. destruct (wrapped_handler_responds c Hc w) as (r & w' & E).
  exists r, w'. split; [exact E|].
  apply (handle_post_envelope c) in E; [exact E|].
  intros files ->. discriminate.
Qed.

Definition new_reviewer : ReviewerReq :=
  {| rr_firstName := "Nora"; rr_lastName := "N"; rr_email := "n@x.com";
     rr_affiliation := "Z" |}.

(** C3 fails for [addReviewer]: its first lookup is awaited before the
    [try], so when the store rejects that call the error leaves the
    handler and no response is sent. *)
Theorem addReviewer_lookup_error_escapes (req : ReviewerReq) (w : World)
    (e : Error) (fs : list (option Error)) :
  faults w = Some e :: fs ->
  handle (AddReviewer req) w = (Throw e, set_faults fs w).
Proof.
  intros Hf. simpl. unfold addReviewer.
  apply bind_throw. unfold findOne. apply bind_throw.
  unfold await. now rewrite Hf.
Qed.

Lemma addReviewer_lookup_error_escapes_witness :
  faults (set_faults [Some StoreError] sample) = [Some StoreError] /\
  handle (AddReviewer new_reviewer) (set_faults [Some StoreError] sample) =
  (Throw StoreError, sample).
Proof.
  split; [reflexivity|].
  exact (addReviewer_lookup_error_escapes new_reviewer
           (set_faults [Some StoreError] sample) StoreError [] eq_refl).
Defined.

(** The same for the stream of [createZip]: a write that fails after the
    body of the [try] has returned is caught by nothing. *)
Lemma createZip_stream_error_escapes :
  fst (createZip ["a.txt"] (set_faults [Some IOError] sample)) = Throw IOError.
Proof. reflexivity. Qed.

(** ** C8: the generated credentials *)

Definition editor_added (password userName : string) : Response :=
  {| status := 201;
     body := [success true; message "Editor added successfully";
              data (VCredentials password userName)] |}.

Definition upper_alnum (c : ascii) : bool :=
  let n := N_of_ascii c in
  (48 <=? n)%N && (n <=? 57)%N || (65 <=? n)%N && (n <=? 90)%N.

Fixpoint all_chars (p : ascii -> bool) (s : string) : bool :=
  match s with
  | EmptyString => true
  | String c s' => p c && all_chars p s'
  end.

(** Ten characters, each a digit or an uppercase letter. *)
Definition fixed_length_password (p : string) : bool :=
  (String.length p =? 10)%nat && all_chars upper_alnum p.

Definition fresh_editor : AddEditorReq :=
  {| ae_journalId := 11; ae_firstName := Some "Eve"; ae_middleName := "";
     ae_lastName := "E"; ae_email := "eve@x.com"; ae_phoneNumber := "999";
     ae_gender := "f" |}.

(** C8 fails on the password: when [Math.random()] returns 0.5, whose
    base-36 rendering is ["0.i"], the editor is created with the password
    ["0.I"]: three characters, one of them the point. *)
Theorem addEditor_short_password :
  fst (addEditor fresh_editor sample) = Ok (editor_added "0.I" "eve500") /\
  fixed_length_password "0.I" = false.
Proof. split; reflexivity. Qed.

Lemma elem_of_update_first_const {D} (p : D -> bool) (d : D) (l : list D) :
  existsb p l = true -> d ∈ update_first p (fun _ => d) l.
Proof.
  induction l as [|a l IH]; simpl; [discriminate|].
  destruct (p a); simpl; intros Hex; apply elem_of_cons; auto.
Qed.

(** Every character of the string is an ASCII character.  On such a
    string [toLowerCase] above is the language's: only [A-Z] change.  A
    letter outside ASCII, which [String.prototype.toLowerCase] lowers as
    well, is not a character of these byte strings. *)
Definition ascii_only (s : string) : bool :=
  all_chars (fun c => (N_of_ascii c <? 128)%N) s.

(** Once both lookups find nothing, the editor is created with the
    generated credentials, for a first name of ASCII characters: nothing
    compares the user name with the stored ones. *)
Lemma addEditor_run req firstName w :
  healthy w ->
  ae_firstName req = Some firstName ->
  ascii_only firstName = true ->
  List.find (fun a => String.eqb (Auth.email a) (ae_email req))
            (auths (store w)) = None ->
  List.find (fun a => String.eqb (Auth.phoneNumber a) (ae_phoneNumber req))
            (auths (store w)) = None ->
  exists w',
    addEditor req w =
    (Ok (editor_added (generate_password (random w 0%nat))
                      (generate_userName firstName (random w 1%nat))), w') /\
    Auth.mk (nextId w) firstName (ae_middleName req) (ae_lastName req)
            (generate_userName firstName (random w 1%nat)) (ae_email req)
            (ae_phoneNumber req) (generate_password (random w 0%nat))
            (ae_gender req) true false ∈ auths (store w').
Proof.
  unfold healthy. intros Hw Hname _ Hemail Hphone.
  destruct w as [s fl ni ck rd up zp tm ml]. simpl in *. subst fl.
  unfold addEditor, try_catch, bind at 1, findOne, await, bind at 1. simpl.
  unfold docs, bind at 1, get_world, ret. simpl. rewrite Hemail.
  unfold bind at 1. unfold bind at 1. simpl. unfold bind at 1. simpl.
  rewrite Hphone, Hname.
  unfold defined, Math_random, new_id, save, findByIdAndUpdate, findOneAndUpdate,
    json, bind, await, docs, put_docs, modify, get_world, ret.
  cbn -[generate_password generate_userName has_id].
  destruct (existsb _ (auths s)) eqn:Hex;
    cbn -[generate_password generate_userName has_id];
    destruct (List.find _ (journals s));
    cbn -[generate_password generate_userName has_id];
    (eexists; split; [reflexivity|]);
    cbn -[generate_password generate_userName has_id];
    solve [ now apply elem_of_update_first_const
          | apply elem_of_app; right; apply list_elem_of_here ].
Qed.

(** The user name is the lowercased first name followed by the decimal
    digits of [Math.floor(Math.random() * 1000)]. *)
Lemma generate_userName_spec firstName r :
  generate_userName firstName r =
  toLowerCase firstName +:+ Number_toString (thousandths r).
Proof. reflexivity. Qed.

(** An editor is added although a stored record already has the user
    name the handler generates. *)
Lemma addEditor_userName_collision :
  let w := set_store
             (mkStore [] [] []
                [Auth.mk 1 "Eve" "" "O" "eve500" "o@x.com" "1" "pw" "f" true false])
             sample in
  fst (addEditor fresh_editor w) = Ok (editor_added "0.I" "eve500").
Proof. reflexivity. Qed.

(** *** The password when the rendering is long enough *)

Lemma substring_length_le n m s : String.length (substring n m s) <= m.
Proof.
  revert n m. induction s as [|c s IH]; intros [|n] [|m]; simpl; try lia.
  - specialize (IH 0%nat m). lia.
  - apply IH.
  - apply IH.
Qed.

Lemma substring_length n m s :
  n + m <= String.length s -> String.length (substring n m s) = m.
Proof.
  revert n m. induction s as [|c s IH]; intros [|n] [|m]; simpl; try lia.
  - intros H. rewrite (IH 0%nat m); lia.
  - intros H. apply IH. lia.
  - intros H. apply IH. lia.
Qed.

Lemma all_chars_substring p n m s :
  all_chars p s = true -> all_chars p (substring n m s) = true.
Proof.
  revert n m. induction s as [|c s IH]; intros [|n] [|m]; simpl; trivial.
  - intros [Hc Hs]%andb_true_iff. rewrite Hc. now apply IH.
  - intros [Hc Hs]%andb_true_iff. now apply IH.
  - intros [Hc Hs]%andb_true_iff. now apply IH.
Qed.

Lemma map_string_length f s : String.length (map_string f s) = String.length s.
Proof. induction s as [|c s IH]; simpl; [trivial|now rewrite IH]. Qed.

Lemma slice_length_le s : String.length (slice (-10) s) <= 10.
Proof.
  unfold slice. cbv zeta. change (-10 <? 0)%Z with true. cbv iota.
  etransitivity; [apply substring_length_le|]. lia.
Qed.

(** The password never has more than ten characters. *)
Lemma generate_password_length_le r :
  String.length (generate_password r) <= 10.
Proof. apply slice_length_le. Qed.

Lemma digit36_upper d :
  (d <? 36)%N = true -> upper_alnum (upper_ascii (digit36 d)) = true.
Proof.
  intros Hd%N.ltb_lt. rewrite <- (N2Nat.id d).
  assert (Hn : (N.to_nat d < 36)%nat) by lia.
  revert Hn. generalize (N.to_nat d). intros n Hn.
  do 36 (destruct n as [|n]; [reflexivity|]). lia.
Qed.

Lemma digits_upper ds :
  forallb (fun c => (c <? 36)%N) ds = true ->
  all_chars upper_alnum
    (toUpperCase (string_of_list_ascii (map digit36 ds))) = true.
Proof.
  unfold toUpperCase. induction ds as [|d ds IH]; simpl; [trivial|].
  intros [Hd Hds]%andb_true_iff. now rewrite (digit36_upper d Hd), IH.
Qed.

Lemma digits_length ds :
  String.length (toUpperCase (string_of_list_ascii (map digit36 ds))) = length ds.
Proof.
  unfold toUpperCase. rewrite map_string_length.
  induction ds as [|d ds IH]; simpl; [trivial|now rewrite IH].
Qed.

(** When the rendering has ten fractional digits or more, the password is
    ten characters, each a digit or an uppercase letter. *)
Lemma generate_password_long r :
  draw_ok r = true ->
  10 <= length (frac36 r) ->
  fixed_length_password (generate_password r) = true.
Proof.
  unfold draw_ok. intros [[Hds _]%andb_true_iff _]%andb_true_iff Hlen.
  unfold generate_password, toString36.
  destruct (frac36 r) as [|d ds] eqn:E; [simpl in Hlen; lia|]. rewrite <- E in *.
  clear E d ds.
  set (body := toUpperCase (string_of_list_ascii (map digit36 (frac36 r)))).
  change (toUpperCase ("0." +:+ string_of_list_ascii (map digit36 (frac36 r))))
    with (String "0" (String "." body)).
  assert (Hb : String.length body = length (frac36 r)) by apply digits_length.
  assert (Hu : all_chars upper_alnum body = true) by now apply digits_upper.
  unfold slice. cbv zeta. change (-10 <? 0)%Z with true. cbv iota.
  simpl String.length. rewrite Hb.
  set (n := length (frac36 r)) in *.
  replace (Z.to_nat (Z.max (Z.of_nat (S (S n)) + -10) 0)) with (S (S (n - 10))) by lia.
  replace (Z.to_nat (Z.of_nat (S (S n)) - Z.max (Z.of_nat (S (S n)) + -10) 0))
    with 10%nat by lia.
  change (substring (S (S (n - 10))) 10 (String "0" (String "." body)))
    with (substring (n - 10) 10 body).
  unfold fixed_length_password.
  rewrite substring_length by lia. now rewrite all_chars_substring.
Qed.

(** ** Instances of the lemmas on the credentials and on the wrapped handlers *)

(** A draw with twelve fractional digits. *)
Definition long_draw : Draw :=
  {| frac36 := [4; 15; 35; 34; 24; 8; 2; 22; 31; 34; 27; 1]%N;
     thousandths := 123 |}.

Lemma generate_password_long_witness :
  draw_ok long_draw = true /\
  10 <= length (frac36 long_draw) /\
  fixed_length_password (generate_password long_draw) = true.
Proof.
  split; [reflexivity|]. split; [simpl; lia|].
  apply generate_password_long; [reflexivity|simpl; lia].
Defined.

Lemma addEditor_run_witness :
  healthy sample /\ ascii_only "Eve" = true /\
  exists w',
    addEditor fresh_editor sample = (Ok (editor_added "0.I" "eve500"), w') /\
    Auth.mk 100 "Eve" "" "E" "eve500" "eve@x.com" "999" "0.I" "f" true false
      ∈ auths (store w').
Proof.
  split; [reflexivity|]. split; [reflexivity|].
  exact (addEditor_run fresh_editor "Eve" sample eq_refl eq_refl eq_refl eq_refl
                       eq_refl).
Defined.

Lemma wrapped_handler_envelope_witness :
  wraps_all (DeleteJournal 10) = true /\
  exists r w',
    handle (DeleteJournal 10) (set_faults [Some StoreError] sample) = (Ok r, w') /\
    envelope r = true.
Proof.
  split; [reflexivity|]. now apply wrapped_handler_envelope.
Defined.

(** * Further properties of the handlers *)

(** ** The handlers that only read *)

(** [m] leaves the store as it found it, on every run. *)
Definition keeps_store {A} (m : M A) : Prop :=
  forall w, store (snd (m w)) = store w.

Section KeepsStore.
Context {A B : Type}.

Lemma keeps_ret (a : A) : keeps_store (ret a).
Proof. now intros w. Qed.

Lemma keeps_throw e : keeps_store (throw (A:=A) e).
Proof. now intros w. Qed.

Lemma keeps_bind (m : M A) (k : A -> M B) :
  keeps_store m -> (forall a, keeps_store (k a)) -> keeps_store (bind m k).
Proof.
  intros Hm Hk w. unfold bind. specialize (Hm w).
  destruct (m w) as [[a|e] w1]; simpl in *; [|exact Hm].
  now rewrite Hk.
Qed.

Lemma keeps_try (m : M A) (h : Error -> M A) :
  keeps_store m -> (forall e, keeps_store (h e)) -> keeps_store (try_catch m h).
Proof.
  intros Hm Hh w. unfold try_catch. specialize (Hm w).
  destruct (m w) as [[a|e] w1]; simpl in *; [exact Hm|].
  now rewrite Hh.
Qed.

Lemma keeps_defined e (o : option A) : keeps_store (defined e o).
Proof. destruct o; [apply keeps_ret | apply keeps_throw]. Qed.

End KeepsStore.

Lemma keeps_await : keeps_store await.
Proof. intros w. unfold await. now destruct (faults w) as [|[e|] fs]. Qed.

Lemma keeps_get_world : keeps_store get_world.
Proof. now intros w. Qed.

Lemma keeps_modify (f : World -> World) :
  (forall w, store (f w) = store w) -> keeps_store (modify f).
Proof. intros Hf w. apply Hf. Qed.

Lemma keeps_find {D} `{Model D} (p : D -> bool) : keeps_store (find p).
Proof.
  unfold find, docs.
  repeat (apply keeps_bind; [|intros ?]);
    auto using keeps_await, keeps_get_world, keeps_ret.
Qed.

Lemma keeps_read_files files : keeps_store (read_files files).
Proof.
  induction files as [|f files IH]; simpl; [apply keeps_ret|].
  unfold readFileSync.
  repeat (apply keeps_bind; [|intros ?]);
    auto using keeps_get_world, keeps_ret, keeps_defined.
Qed.

(** The handlers that issue no write. *)
Definition read_only (c : Call) : bool :=
  match c with
  | GetArticle _ | SendMail _ | GetJournalList | GetArticleList _
  | GetReviewerList | GetReviewArticles _ | CreateZip _ => true
  | _ => false
  end.

Ltac keeps :=
  repeat (cbv beta zeta;
          match goal with
          | |- keeps_store (try_catch _ _) => apply keeps_try; [|intros ?]
          | |- keeps_store (bind _ _) => apply keeps_bind; [|intros ?]
          | |- keeps_store (json _ _) => apply keeps_ret
          | |- keeps_store (ret _) => apply keeps_ret
          | |- keeps_store (find _) => apply keeps_find
          | |- keeps_store await => apply keeps_await
          | |- keeps_store get_world => apply keeps_get_world
          | |- keeps_store getTime => unfold getTime
          | |- keeps_store (transporter_sendMail _) => unfold transporter_sendMail
          | |- keeps_store (read_files _) => apply keeps_read_files
          | |- keeps_store (modify _) => apply keeps_modify; intros ?; reflexivity
          | |- keeps_store (match ?x with _ => _ end) => destruct x
          end).

(** The listing handlers, [sendMail] and [createZip] never change a
    collection, whichever calls are rejected. *)
Theorem read_only_keeps_store (c : Call) (w : World) :
  read_only c = true -> store (snd (handle c w)) = store w.
Proof.
  intros Hc. revert w. change (keeps_store (handle c)).
  destruct c; try discriminate Hc; simpl;
    unfold getArticle, sendMail, getJournalList, getArticleList,
      getReviewerList, getReviewArticles, createZip;
    keeps.
Qed.

Lemma read_only_keeps_store_witness :
  read_only (CreateZip ["a.txt"; "b.txt"]) = true /\
  store (snd (handle (CreateZip ["a.txt"; "b.txt"])
                     (set_faults [Some IOError] sample))) = store sample.
Proof.
  split; [reflexivity|].
  exact (read_only_keeps_store (CreateZip ["a.txt"; "b.txt"])
           (set_faults [Some IOError] sample) eq_refl).
Defined.

(** ** Registering reviewers *)

Definition reviewer_exists : Response :=
  {| status := 400; body := [success false; message "Reviewer already exists"] |}.

Definition reviewer_added (r : Reviewer.t) : Response :=
  {| status := 201;
     body := [success true; message "Reviewer added successfully";
              data (VReviewer r)] |}.

Definition reviewer_failed (e : Error) : Response :=
  {| status := 404;
     body := [success false; message "Reviewer addition failed"; error e] |}.

(** The document [addReviewer] builds from the request. *)
Definition reviewer_of (i : ObjectId) (req : ReviewerReq) : Reviewer.t :=
  Reviewer.mk i (rr_firstName req) (rr_lastName req) (rr_email req)
              (rr_affiliation req).

Definition has_email (email : string) (r : Reviewer.t) : bool :=
  String.eqb (Reviewer.email r) email.

(** No document of the collection has the id the next [new Model] gets. *)
Definition fresh_id {D} `{Model D} (i : ObjectId) (l : list D) : Prop :=
  forall d, d ∈ l -> doc_id d <> i.

Lemma fresh_id_existsb {D} `{Model D} (i : ObjectId) (l : list D) :
  fresh_id i l -> existsb (has_id (Some i)) l = false.
Proof.
  intros Hfresh. apply not_true_is_false.
  intros (d & Hd & Hid)%existsb_elem_of. apply N.eqb_eq in Hid.
  exact (Hfresh d Hd Hid).
Qed.

(** A reviewer whose email is already registered is refused, and nothing
    is written, whichever calls are rejected; with a store that answers
    the response is the 400 "already exists". *)
Theorem addReviewer_duplicate_email (req : ReviewerReq) (w : World) :
  (exists r, r ∈ reviewers (store w) /\ Reviewer.email r = rr_email req) ->
  store (snd (addReviewer req w)) = store w /\
  (healthy w -> addReviewer req w = (Ok reviewer_exists, w)).
Proof.
  intros (r & Hr & He).
  assert (Hfind : exists r', List.find (has_email (rr_email req))
                                       (reviewers (store w)) = Some r').
  { destruct (List.find _ _) as [r'|] eqn:E; [eauto|].
    apply list_elem_of_In in Hr. pose proof (find_none _ _ E r Hr) as Hn.
    unfold has_email in Hn. apply String.eqb_neq in Hn. contradiction. }
  destruct Hfind as [r' Hfind]. unfold has_email in Hfind.
  unfold addReviewer, bind, findOne, await, docs, get_world, json, ret, healthy.
  destruct w as [s fl ni ck rd up zp tm ml]. simpl in Hfind |- *.
  destruct fl as [|[e|] fl]; simpl; rewrite ?Hfind; split;
    try (intros ?; discriminate); reflexivity.
Qed.

Lemma addReviewer_duplicate_email_witness :
  (exists r, r ∈ reviewers (store sample) /\ Reviewer.email r = "r@x.com") /\
  addReviewer (Build_ReviewerReq "Rita" "R" "r@x.com" "X") sample =
  (Ok reviewer_exists, sample).
Proof.
  assert (Hdup : exists r, r ∈ reviewers (store sample) /\
                           Reviewer.email r = "r@x.com").
  { eexists. split; [apply list_elem_of_here|reflexivity]. }
  split; [exact Hdup|].
  exact (proj2 (addReviewer_duplicate_email
                  (Build_ReviewerReq "Rita" "R" "r@x.com" "X") sample Hdup)
               eq_refl).
Defined.

Lemma addReviewer_run req w :
  healthy w ->
  List.find (has_email (rr_email req)) (reviewers (store w)) = None ->
  fresh_id (nextId w) (reviewers (store w)) ->
  addReviewer req w =
  (Ok (reviewer_added (reviewer_of (nextId w) req)),
   set_nextId (nextId w + 1)
     (set_store
        {| articles := articles (store w);
           journals := journals (store w);
           reviewers := reviewers (store w) ++ [reviewer_of (nextId w) req];
           auths := update_first
                      (fun a => String.eqb (Auth.email a) (rr_email req))
                      (Auth.set_isReviewer true) (auths (store w)) |} w)).
Proof.
  unfold healthy, has_email. intros Hw Hfind Hfresh.
  apply fresh_id_existsb in Hfresh.
  destruct w as [s fl ni ck rd up zp tm ml]. simpl in *. subst fl.
  unfold addReviewer, findOne, new_id, save, findOneAndUpdate, try_catch, docs,
    put_docs, bind, await, modify, get_world, json, ret.
  simpl. rewrite Hfind. simpl. rewrite Hfresh. simpl.
  destruct (List.find _ (auths s)) eqn:Ha; simpl.
  - reflexivity.
  - now rewrite (update_first_not_found _ _ _ Ha).
Qed.

Lemma find_email_none req l :
  (forall r, r ∈ l -> Reviewer.email r <> rr_email req) ->
  List.find (has_email (rr_email req)) l = None.
Proof.
  intros Hno. destruct (List.find _ l) as [r|] eqn:E; [|trivial].
  apply find_some in E as [Hin He]. apply list_elem_of_In in Hin.
  apply String.eqb_eq in He. now destruct (Hno r Hin).
Qed.

(** A new reviewer is appended to the roster with the next id, and the
    first Auth record with the same email gets [isReviewer] true and keeps
    its place and its other fields.  When no Auth record has the email the
    handler still answers 201 and the Auth records stay as they are. *)
Theorem addReviewer_registers (req : ReviewerReq) (w : World) :
  healthy w ->
  (forall r, r ∈ reviewers (store w) -> Reviewer.email r <> rr_email req) ->
  fresh_id (nextId w) (reviewers (store w)) ->
  exists w',
    addReviewer req w = (Ok (reviewer_added (reviewer_of (nextId w) req)), w') /\
    reviewers (store w') = reviewers (store w) ++ [reviewer_of (nextId w) req] /\
    (forall k a,
       first_auth_of (rr_email req) (auths (store w)) k a ->
       auths (store w') = <[k := Auth.set_isReviewer true a]> (auths (store w))) /\
    ((forall a, a ∈ auths (store w) -> Auth.email a <> rr_email req) ->
     auths (store w') = auths (store w)) /\
    articles (store w') = articles (store w) /\
    journals (store w') = journals (store w).
Proof.
  intros Hw Hnew Hfresh. eexists.
  split; [exact (addReviewer_run req w Hw (find_email_none _ _ Hnew) Hfresh)|].
  simpl. split; [reflexivity|]. split; [|split; [|auto]].
  - intros k a (Hk & He & Hleast).
    apply (update_first_at _ _ _ k a Hk); [now apply String.eqb_eq|].
    intros j b Hj Hlt. apply String.eqb_neq. eauto.
  - intros Hno. apply update_first_no_match.
    intros a Ha. apply String.eqb_neq. auto.
Qed.

Lemma addReviewer_registers_witness :
  healthy sample /\
  exists w',
    addReviewer new_reviewer sample =
      (Ok (reviewer_added (Reviewer.mk 100 "Nora" "N" "n@x.com" "Z")), w') /\
    auths (store w') = auths (store sample).
Proof.
  split; [reflexivity|].
  destruct (addReviewer_registers new_reviewer sample eq_refl)
    as (w' & Hrun & _ & _ & Hsame & _).
  - intros r Hr. repeat (apply elem_of_cons in Hr as [->|Hr]; [discriminate|]).
    inversion Hr.
  - intros r Hr. repeat (apply elem_of_cons in Hr as [->|Hr]; [discriminate|]).
    inversion Hr.
  - exists w'. split; [exact Hrun|]. apply Hsame.
    intros a Ha. repeat (apply elem_of_cons in Ha as [->|Ha]; [discriminate|]).
    inversion Ha.
Defined.

(** The two writes of [addReviewer] are not one transaction: when the
    store takes the new reviewer and then rejects the update of the Auth
    record, the handler answers the 404 failure, yet the reviewer stays
    registered. *)
Theorem addReviewer_not_atomic (req : ReviewerReq) (w : World) (e : Error)
    (fs : list (option Error)) :
  faults w = None :: None :: Some e :: fs ->
  (forall r, r ∈ reviewers (store w) -> Reviewer.email r <> rr_email req) ->
  fresh_id (nextId w) (reviewers (store w)) ->
  exists w',
    addReviewer req w = (Ok (reviewer_failed e), w') /\
    reviewers (store w') = reviewers (store w) ++ [reviewer_of (nextId w) req] /\
    auths (store w') = auths (store w).
Proof.
  intros Hf Hnew%find_email_none Hfresh%fresh_id_existsb. unfold has_email in Hnew.
  destruct w as [s fl ni ck rd up zp tm ml]. simpl in *. subst fl.
  unfold addReviewer, findOne, new_id, save, findOneAndUpdate, try_catch, docs,
    put_docs, bind, await, modify, get_world, json, ret.
  simpl. rewrite Hnew. simpl. rewrite Hfresh. simpl.
  eexists. split; [reflexivity|]. now simpl.
Qed.

Lemma addReviewer_not_atomic_witness :
  faults (set_faults [None; None; Some StoreError] sample) =
    [None; None; Some StoreError] /\
  exists w',
    addReviewer new_reviewer (set_faults [None; None; Some StoreError] sample) =
      (Ok (reviewer_failed StoreError), w') /\
    reviewers (store w') =
      reviewers (store sample) ++ [Reviewer.mk 100 "Nora" "N" "n@x.com" "Z"].
Proof.
  split; [reflexivity|].
  destruct (addReviewer_not_atomic new_reviewer
              (set_faults [None; None; Some StoreError] sample) StoreError []
              eq_refl)
    as (w' & Hrun & Hrev & _).
  - intros r Hr. repeat (apply elem_of_cons in Hr as [->|Hr]; [discriminate|]).
    inversion Hr.
  - intros r Hr. repeat (apply elem_of_cons in Hr as [->|Hr]; [discriminate|]).
    inversion Hr.
  - exists w'. split; [exact Hrun | exact Hrev].
Defined.

(** The documents [addBulkReviewer] inserts: one per record of the
    request, in order, with consecutive ids from [i]. *)
Fixpoint bulk_docs (i : ObjectId) (reqs : list ReviewerReq) : list Reviewer.t :=
  match reqs with
  | [] => []
  | req :: reqs' => reviewer_of i req :: bulk_docs (i + 1) reqs'
  end.

Definition reviewers_added (l : list Reviewer.t) : Response :=
  {| status := 201;
     body := [success true; message "Reviewers added successfully";
              data (VReviewers l)] |}.

Lemma new_reviewers_run reqs w :
  new_reviewers reqs w =
  (Ok (bulk_docs (nextId w) reqs),
   set_nextId (nextId w + N.of_nat (length reqs)) w).
Proof.
  revert w. induction reqs as [|req reqs IH]; intros w.
  - simpl. unfold ret. rewrite N.add_0_r. now destruct w.
  - simpl new_reviewers. unfold bind, new_id, modify, get_world, ret.
    cbn [length]. rewrite Nat2N.inj_succ.
    cbn -[new_reviewers N.add N.of_nat N.succ]. rewrite IH.
    cbn -[N.add N.of_nat N.succ].
    replace (nextId w + N.succ (N.of_nat (length reqs)))%N
      with (nextId w + 1 + N.of_nat (length reqs))%N by lia.
    reflexivity.
Qed.

(** When the store accepts the batch, [addBulkReviewer] appends one
    reviewer per record, in the order of the request, and answers 201 with
    them.  It looks nothing up and touches no Auth record: no [isReviewer]
    flag is set, and an empty batch changes no collection. *)
Theorem addBulkReviewer_appends (reqs : list ReviewerReq) (w : World) :
  healthy w ->
  exists w',
    addBulkReviewer reqs w =
      (Ok (reviewers_added (bulk_docs (nextId w) reqs)), w') /\
    reviewers (store w') = reviewers (store w) ++ bulk_docs (nextId w) reqs /\
    map Reviewer.email (bulk_docs (nextId w) reqs) = map rr_email reqs /\
    auths (store w') = auths (store w) /\
    articles (store w') = articles (store w) /\
    journals (store w') = journals (store w).
Proof.
  unfold healthy. intros Hw. unfold addBulkReviewer, try_catch.
  unfold bind at 1. rewrite new_reviewers_run.
  destruct w as [s fl ni ck rd up zp tm ml]. simpl in *. subst fl.
  unfold insertMany, docs, put_docs, bind, await, modify, get_world, json, ret.
  simpl. eexists. split; [reflexivity|]. simpl.
  split; [reflexivity|]. split; [|auto].
  generalize ni. induction reqs as [|req reqs IH]; intros i; simpl;
    [trivial|now rewrite IH].
Qed.

Lemma addBulkReviewer_appends_witness :
  healthy sample /\
  exists w',
    addBulkReviewer [new_reviewer; Build_ReviewerReq "Rita" "R" "r@x.com" "X"]
                    sample =
      (Ok (reviewers_added [Reviewer.mk 100 "Nora" "N" "n@x.com" "Z";
                            Reviewer.mk 101 "Rita" "R" "r@x.com" "X"]), w') /\
    auths (store w') = auths (store sample).
Proof.
  split; [reflexivity|].
  destruct (addBulkReviewer_appends
              [new_reviewer; Build_ReviewerReq "Rita" "R" "r@x.com" "X"]
              sample eq_refl)
    as (w' & Hrun & _ & _ & Hauths & _).
  exists w'. split; [exact Hrun | exact Hauths].
Defined.

(** ** Submitting an article *)

Definition article_submitted (a : Article.t) : Response :=
  {| status := 201;
     body := [success true; message "Article submitted successfully";
              data (VArticle a)] |}.

Definition article_failed (e : Error) : Response :=
  {| status := 404;
     body := [success false; message "Article submission failed"; error e] |}.

(** A request whose keywords or authors do not parse, or that comes
    without a file, is answered with the 404 failure before anything is
    awaited: the world stays as it was, whatever the store would answer. *)
Theorem addArticle_malformed (req : AddArticleReq) (w : World) :
  aa_keywords req = None \/ aa_file req = None \/ aa_authors req = None ->
  exists e, addArticle req w = (Ok (article_failed e), w).
Proof.
  intros Hbad. unfold addArticle, try_catch, bind, defined, throw, json, ret.
  destruct (aa_keywords req); [|eauto].
  destruct (aa_file req); [|eauto].
  destruct (aa_authors req); [|eauto].
  destruct Hbad as [H|[H|H]]; discriminate H.
Qed.

Definition no_file : AddArticleReq :=
  {| aa_userId := 7; aa_title := "T"; aa_abstract := "A";
     aa_keywords := Some ["x"; "y"]; aa_file := None;
     aa_authors := Some [author "a@x.com"]; aa_journalId := 10 |}.

Lemma addArticle_malformed_witness :
  aa_file no_file = None /\
  exists e, addArticle no_file (set_faults [Some StoreError] sample) =
            (Ok (article_failed e), set_faults [Some StoreError] sample).
Proof.
  split; [reflexivity|].
  apply (addArticle_malformed no_file). right. left. reflexivity.
Defined.

(** A well-formed submission is stored as a new article with exactly the
    keywords, authors and journal of the request, the time of the call and
    no reviewers; the other collections are not touched. *)
Theorem addArticle_stores (req : AddArticleReq) (w : World)
    (keywords : list string) (file : string) (authors : list Author) :
  healthy w ->
  aa_keywords req = Some keywords ->
  aa_file req = Some file ->
  aa_authors req = Some authors ->
  fresh_id (nextId w) (articles (store w)) ->
  exists a w',
    addArticle req w = (Ok (article_submitted a), w') /\
    articles (store w') = articles (store w) ++ [a] /\
    Article._id a = nextId w /\ Article.userId a = aa_userId req /\
    Article.keywords a = keywords /\ Article.file a = file /\
    Article.authors a = authors /\ Article.journalId a = aa_journalId req /\
    Article.reviewers a = [] /\ Article.createdAt a = clock w /\
    journals (store w') = journals (store w) /\
    reviewers (store w') = reviewers (store w) /\
    auths (store w') = auths (store w).
Proof.
  unfold healthy. intros Hw Hk Hf Ha Hfresh%fresh_id_existsb.
  destruct w as [s fl ni ck rd up zp tm ml]. simpl in *. subst fl.
  unfold addArticle, new_id, getTime, save, try_catch, docs, put_docs, defined,
    bind, await, modify, get_world, json, ret.
  rewrite Hk, Hf, Ha. simpl. rewrite Hfresh. simpl.
  eexists _, _. split; [reflexivity|]. simpl. repeat split.
Qed.

Definition good_article : AddArticleReq :=
  {| aa_userId := 7; aa_title := "T"; aa_abstract := "A";
     aa_keywords := Some ["x"; "y"]; aa_file := Some "paper.pdf";
     aa_authors := Some [author "a@x.com"]; aa_journalId := 10 |}.

Lemma sample_articles_fresh : fresh_id 100 (articles (store sample)).
Proof.
  intros d Hd. repeat (apply elem_of_cons in Hd as [->|Hd]; [discriminate|]).
  inversion Hd.
Qed.

Lemma addArticle_stores_witness :
  healthy sample /\
  exists a w',
    addArticle good_article sample = (Ok (article_submitted a), w') /\
    Article.keywords a = ["x"; "y"] /\ Article.authors a = [author "a@x.com"] /\
    Article.journalId a = 10%N /\ Article.reviewers a = [].
Proof.
  split; [reflexivity|].
  destruct (addArticle_stores good_article sample ["x"; "y"] "paper.pdf"
              [author "a@x.com"] eq_refl eq_refl eq_refl eq_refl
              sample_articles_fresh)
    as (a & w' & Hrun & _ & _ & _ & Hk & _ & Ha & Hj & Hr & _).
  exists a, w'. auto.
Defined.

(** ** Journals: creation, listing, and the round trip with deletion *)

Lemma find_app_fresh {D} `{Model D} (i : ObjectId) (l : list D) d :
  fresh_id i l -> doc_id d = i ->
  List.find (has_id (Some i)) (l ++ [d]) = Some d.
Proof.
  intros Hfresh Hd. induction l as [|a l IH]; simpl.
  - now rewrite Hd, N.eqb_refl.
  - destruct (N.eqb_spec (doc_id a) i) as [Ha|Ha].
    + destruct (Hfresh a); [apply list_elem_of_here|exact Ha].
    + apply IH. intros x Hx. apply Hfresh. now apply list_elem_of_further.
Qed.

Lemma remove_first_app_fresh {D} `{Model D} (i : ObjectId) (l : list D) d :
  fresh_id i l -> doc_id d = i ->
  remove_first (has_id (Some i)) (l ++ [d]) = l.
Proof.
  intros Hfresh Hd. induction l as [|a l IH]; simpl.
  - now rewrite Hd, N.eqb_refl.
  - destruct (N.eqb_spec (doc_id a) i) as [Ha|Ha].
    + destruct (Hfresh a); [apply list_elem_of_here|exact Ha].
    + f_equal. apply IH. intros x Hx. apply Hfresh. now apply list_elem_of_further.
Qed.

Lemma find_update_first {D} (p : D -> bool) (f : D -> D) (l : list D) d :
  List.find p l = Some d -> p (f d) = true ->
  List.find p (update_first p f l) = Some (f d).
Proof.
  induction l as [|a l IH]; simpl; [discriminate|].
  destruct (p a) eqn:Ha.
  - intros [= ->] Hf. simpl. now rewrite Hf.
  - intros Hfind Hf. simpl. rewrite Ha. now apply IH.
Qed.

Lemma store_eta s :
  {| articles := articles s; journals := journals s;
     reviewers := reviewers s; auths := auths s |} = s.
Proof. now destruct s. Qed.

Definition journal_added (j : Journal.t) : Response :=
  {| status := 201;
     body := [success true; message "Journal added successfully";
              data (VJournal j)] |}.

Lemma addJournal_run req w :
  healthy w ->
  fresh_id (nextId w) (journals (store w)) ->
  addJournal req w =
  (Ok (journal_added (Journal.mk (nextId w) (aj_title req) (aj_description req) None)),
   set_nextId (nextId w + 1)
     (set_store
        {| articles := articles (store w);
           journals := journals (store w) ++
                       [Journal.mk (nextId w) (aj_title req) (aj_description req)
                                   None];
           reviewers := reviewers (store w);
           auths := auths (store w) |} w)).
Proof.
  unfold healthy. intros Hw Hfresh%fresh_id_existsb.
  destruct w as [s fl ni ck rd up zp tm ml]. simpl in *. subst fl.
  unfold addJournal, new_id, save, try_catch, docs, put_docs, bind, await,
    modify, get_world, json, ret.
  simpl. now rewrite Hfresh.
Qed.

(** A journal is created without editor, and deleting it right away gives
    back the store as it was before the creation: no Auth record is
    touched on the way. *)
Theorem addJournal_then_deleteJournal (req : AddJournalReq) (w : World) :
  healthy w ->
  fresh_id (nextId w) (journals (store w)) ->
  exists j w1 w2,
    addJournal req w = (Ok (journal_added j), w1) /\
    Journal._id j = nextId w /\ Journal.editorId j = None /\
    journals (store w1) = journals (store w) ++ [j] /\
    deleteJournal (Journal._id j) w1 = (Ok journal_deleted, w2) /\
    store w2 = store w.
Proof.
  intros Hw Hfresh. eexists _, _, _.
  split; [exact (addJournal_run req w Hw Hfresh)|].
  split; [reflexivity|]. split; [reflexivity|]. split; [reflexivity|].
  set (j := Journal.mk _ _ _ _). set (w1 := set_nextId _ _).
  assert (Hfind : List.find (has_id (Some (nextId w))) (journals (store w1)) = Some j).
  { exact (find_app_fresh (D:=Journal.t) _ _ j Hfresh eq_refl). }
  split; [exact (deleteJournal_run (nextId w) w1 j Hw Hfind)|].
  cbn -[has_id]. fold j.
  rewrite (remove_first_app_fresh (D:=Journal.t) _ _ j Hfresh eq_refl).
  apply store_eta.
Qed.

Lemma sample_journals_fresh : fresh_id 100 (journals (store sample)).
Proof.
  intros d Hd. repeat (apply elem_of_cons in Hd as [->|Hd]; [discriminate|]).
  inversion Hd.
Qed.

Lemma addJournal_then_deleteJournal_witness :
  healthy sample /\
  exists j w1 w2,
    addJournal (Build_AddJournalReq "Letters" "Third") sample =
      (Ok (journal_added j), w1) /\
    deleteJournal (Journal._id j) w1 = (Ok journal_deleted, w2) /\
    store w2 = store sample.
Proof.
  split; [reflexivity|].
  destruct (addJournal_then_deleteJournal (Build_AddJournalReq "Letters" "Third")
              sample eq_refl sample_journals_fresh)
    as (j & w1 & w2 & Hadd & _ & _ & _ & Hdel & Hsame).
  exists j, w1, w2. auto.
Defined.

Definition journals_listed (l : list JournalView) : Response :=
  {| status := 200;
     body := [success true; message "Journal data retrieved successfully";
              data (VJournals l)] |}.

Definition editor_view (a : Auth.t) : EditorView :=
  {| ev_id := Auth._id a; ev_firstName := Auth.firstName a;
     ev_lastName := Auth.lastName a; ev_email := Auth.email a |}.

(** [getJournalList] answers 200 for every store that answers, the empty
    one included, with one entry per journal in the order of the store.
    An entry shows the editor's name and email when the journal's
    [editorId] names an Auth record; when the journal has no editor, or
    its [editorId] names no Auth record, both [editor] and [editorId] of
    the entry are null. *)
Theorem getJournalList_lists_all (w : World) :
  healthy w ->
  exists l,
    getJournalList w = (Ok (journals_listed l), w) /\
    length l = length (journals (store w)) /\
    forall k j,
      journals (store w) !! k = Some j ->
      exists v,
        l !! k = Some v /\
        jv_id v = Journal._id j /\ jv_title v = Journal.title j /\
        jv_description v = Journal.description j /\
        ((forall a, a ∈ auths (store w) -> Some (Auth._id a) <> Journal.editorId j) ->
         jv_editor v = None /\ jv_editorId v = None) /\
        ((exists a, a ∈ auths (store w) /\ Some (Auth._id a) = Journal.editorId j) ->
         jv_editorId v = Journal.editorId j /\
         exists a, a ∈ auths (store w) /\ Some (Auth._id a) = Journal.editorId j /\
                   jv_editor v = Some (editor_view a)).
Proof.
  unfold healthy. intros Hw.
  exists (map (populate (auths (store w))) (journals (store w))).
  split; [|split].
  - destruct w as [s fl ni ck rd up zp tm ml]. simpl in *. now subst fl.
  - apply length_map.
  - intros k j Hk. exists (populate (auths (store w)) j).
    split; [|split; [reflexivity|split; [reflexivity|split; [reflexivity|]]]].
    { change (map ?f ?l) with (f <$> l). now rewrite list_lookup_fmap, Hk. }
    unfold populate.
    destruct (List.find (has_id (Journal.editorId j)) (auths (store w)))
      as [a|] eqn:Hfind; simpl.
    + apply find_some in Hfind as [Hin Hid]. apply list_elem_of_In in Hin.
      destruct (Journal.editorId j) as [e|]; [|discriminate].
      simpl in Hid. apply N.eqb_eq in Hid.
      split.
      * intros Hno. destruct (Hno a Hin). now rewrite Hid.
      * intros _. split; [now rewrite Hid|].
        exists a. split; [exact Hin|]. split; [now rewrite Hid|reflexivity].
    + split; [auto|]. intros (a & Hin & Hid).
      apply list_elem_of_In in Hin. pose proof (find_none _ _ Hfind a Hin) as Hn.
      rewrite <- Hid in Hn. simpl in Hn. now rewrite N.eqb_refl in Hn.
Qed.

Lemma getJournalList_lists_all_witness :
  healthy sample /\
  exists l, getJournalList sample = (Ok (journals_listed l), sample) /\
            length l = 2%nat.
Proof.
  split; [reflexivity|].
  destruct (getJournalList_lists_all sample eq_refl) as (l & Hrun & Hlen & _).
  exists l. split; [exact Hrun | exact Hlen].
Defined.

(** ** Editors: assignment, removal, and how the two compose *)

Definition editor_failed (e : Error) : Response :=
  {| status := 404;
     body := [success false; message "Editor addition failed"; error e] |}.

(** The Auth record [addEditor] builds. *)
Definition editor_of (req : AddEditorReq) (firstName : string) (w : World) : Auth.t :=
  Auth.mk (nextId w) firstName (ae_middleName req) (ae_lastName req)
          (generate_userName firstName (random w 1%nat)) (ae_email req)
          (ae_phoneNumber req) (generate_password (random w 0%nat))
          (ae_gender req) true false.

Lemma not_taken_find req s :
  ~ taken req s ->
  List.find (fun a => String.eqb (Auth.email a) (ae_email req)) (auths s) = None /\
  List.find (fun a => String.eqb (Auth.phoneNumber a) (ae_phoneNumber req))
            (auths s) = None.
Proof.
  intros Hfree. split.
  - destruct (List.find _ _) as [a|] eqn:E; [|trivial].
    apply find_some in E as [Hin He]. apply list_elem_of_In in Hin.
    apply String.eqb_eq in He. destruct Hfree. exists a. auto.
  - destruct (List.find _ _) as [a|] eqn:E; [|trivial].
    apply find_some in E as [Hin He]. apply list_elem_of_In in Hin.
    apply String.eqb_eq in He. destruct Hfree. exists a. auto.
Qed.

Lemma addEditor_run_fresh req firstName w :
  healthy w ->
  ae_firstName req = Some firstName ->
  ~ taken req (store w) ->
  fresh_id (nextId w) (auths (store w)) ->
  exists w',
    addEditor req w =
      (Ok (editor_added (generate_password (random w 0%nat))
                        (generate_userName firstName (random w 1%nat))), w') /\
    healthy w' /\
    store w' =
      {| articles := articles (store w);
         journals := update_first (has_id (Some (ae_journalId req)))
                       (Journal.set_editorId (Some (nextId w)))
                       (journals (store w));
         reviewers := reviewers (store w);
         auths := auths (store w) ++ [editor_of req firstName w] |}.
Proof.
  unfold healthy. intros Hw Hname [Hemail Hphone]%not_taken_find
                         Hfresh%fresh_id_existsb.
  destruct w as [s fl ni ck rd up zp tm ml]. simpl in *. subst fl.
  unfold addEditor, findOne, defined, Math_random, new_id, save,
    findByIdAndUpdate, findOneAndUpdate, try_catch, docs, put_docs, bind, await,
    modify, get_world, json, ret.
  cbn -[generate_password generate_userName].
  rewrite Hemail. cbn -[generate_password generate_userName].
  rewrite Hphone, Hname. cbn -[generate_password generate_userName].
  rewrite Hfresh. cbn -[generate_password generate_userName].
  destruct (List.find _ (journals s)) eqn:Hj;
    cbn -[generate_password generate_userName];
    (eexists; split; [reflexivity|]); split; try reflexivity.
  cbn -[generate_password generate_userName].
  now rewrite (update_first_not_found _ _ _ Hj).
Qed.

(** The document at [k] is the first one of the collection with the id:
    the one a lookup by id finds. *)
Definition first_doc_of {D} `{Model D} (i : ObjectId) (l : list D) (k : nat)
    (d : D) : Prop :=
  l !! k = Some d /\ doc_id d = i /\
  forall n d', l !! n = Some d' -> n < k -> doc_id d' <> i.

Lemma update_first_doc {D} `{Model D} (i : ObjectId) (f : D -> D) (l : list D) k d :
  first_doc_of i l k d ->
  update_first (has_id (Some i)) f l = <[k := f d]> l.
Proof.
  intros (Hk & Hid & Hleast).
  apply (update_first_at _ _ _ k d Hk); [now apply N.eqb_eq|].
  intros n d' Hn Hlt. apply N.eqb_neq. eauto.
Qed.

Lemma find_first_doc {D} `{Model D} (i : ObjectId) (l : list D) k d :
  first_doc_of i l k d -> List.find (has_id (Some i)) l = Some d.
Proof.
  revert k. induction l as [|a l IH]; intros k (Hk & Hid & Hleast); [discriminate|].
  simpl. destruct k as [|k].
  - injection Hk as ->. now rewrite Hid, N.eqb_refl.
  - destruct (N.eqb_spec (doc_id a) i) as [Ha|Ha].
    + destruct (Hleast 0%nat a eq_refl); [lia|exact Ha].
    + apply (IH k). split; [exact Hk|]. split; [exact Hid|].
      intros n d' Hn Hlt. apply (Hleast (S n) d' Hn). lia.
Qed.

(** [addEditor] with a first name of ASCII characters and a free email
    and phone number answers 201 with the credentials, appends the new
    Auth record and keeps every earlier one, a previous editor's included.
    The journal named by the request gets the new record as [editorId];
    when the id names no journal the editor is created all the same and no
    journal changes. *)
Theorem addEditor_creates_and_links (req : AddEditorReq) (firstName : string)
    (w : World) :
  healthy w ->
  ae_firstName req = Some firstName ->
  ascii_only firstName = true ->
  ~ taken req (store w) ->
  fresh_id (nextId w) (auths (store w)) ->
  exists w',
    addEditor req w =
      (Ok (editor_added (generate_password (random w 0%nat))
                        (generate_userName firstName (random w 1%nat))), w') /\
    auths (store w') = auths (store w) ++ [editor_of req firstName w] /\
    (forall k j,
       first_doc_of (ae_journalId req) (journals (store w)) k j ->
       journals (store w') =
       <[k := Journal.set_editorId (Some (nextId w)) j]> (journals (store w))) /\
    ((forall j, j ∈ journals (store w) -> Journal._id j <> ae_journalId req) ->
     journals (store w') = journals (store w)) /\
    articles (store w') = articles (store w) /\
    reviewers (store w') = reviewers (store w).
Proof.
  intros Hw Hname _ Hfree Hfresh.
  destruct (addEditor_run_fresh req firstName w Hw Hname Hfree Hfresh)
    as (w' & Hrun & _ & Hstore).
  exists w'. split; [exact Hrun|]. rewrite Hstore. simpl.
  split; [reflexivity|]. split; [|split; [|auto]].
  - intros k j Hfirst. now apply update_first_doc.
  - intros Hno. apply update_first_no_match.
    intros j Hj. apply N.eqb_neq. auto.
Qed.

Lemma sample_auths_fresh : fresh_id 100 (auths (store sample)).
Proof.
  intros d Hd. repeat (apply elem_of_cons in Hd as [->|Hd]; [discriminate|]).
  inversion Hd.
Qed.

Lemma fresh_editor_not_taken : ~ taken fresh_editor (store sample).
Proof.
  intros (a & Ha & Hm).
  repeat (apply elem_of_cons in Ha as [->|Ha];
          [destruct Hm as [Hm|Hm]; discriminate Hm|]).
  inversion Ha.
Qed.

(** A request for a journal that does not exist. *)
Definition lost_editor : AddEditorReq :=
  {| ae_journalId := 55; ae_firstName := Some "Eve"; ae_middleName := "";
     ae_lastName := "E"; ae_email := "eve@x.com"; ae_phoneNumber := "999";
     ae_gender := "f" |}.

Lemma addEditor_creates_and_links_witness :
  healthy sample /\ ascii_only "Eve" = true /\
  exists w',
    addEditor lost_editor sample = (Ok (editor_added "0.I" "eve500"), w') /\
    journals (store w') = journals (store sample) /\
    auths (store w') = auths (store sample) ++ [editor_of lost_editor "Eve" sample].
Proof.
  split; [reflexivity|]. split; [reflexivity|].
  destruct (addEditor_creates_and_links lost_editor "Eve" sample eq_refl eq_refl
              eq_refl fresh_editor_not_taken sample_auths_fresh)
    as (w' & Hrun & Hauths & _ & Hlost & _).
  exists w'. split; [exact Hrun|]. split; [|exact Hauths].
  apply Hlost. intros j Hj.
  repeat (apply elem_of_cons in Hj as [->|Hj]; [discriminate|]). inversion Hj.
Defined.

Lemma update_first_twice {D} (p : D -> bool) (f g : D -> D) (l : list D) :
  (forall d, p d = true -> p (f d) = true) ->
  update_first p g (update_first p f l) = update_first p (fun d => g (f d)) l.
Proof.
  intros Hp. induction l as [|a l IH]; simpl; [trivial|].
  destruct (p a) eqn:Ha; simpl.
  - now rewrite (Hp a Ha).
  - now rewrite Ha, IH.
Qed.

(** Assigning an editor to a journal that has none and removing the
    editor again gives back the store as it was: the Auth record created
    by the assignment is the one the removal deletes. *)
Theorem addEditor_then_removeEditor (req : AddEditorReq) (firstName : string)
    (w : World) (J : Journal.t) :
  healthy w ->
  ae_firstName req = Some firstName ->
  ~ taken req (store w) ->
  fresh_id (nextId w) (auths (store w)) ->
  List.find (has_id (Some (ae_journalId req))) (journals (store w)) = Some J ->
  Journal.editorId J = None ->
  exists r w1 w2,
    addEditor req w = (Ok r, w1) /\ status r = 201%N /\
    List.find (has_id (Some (ae_journalId req))) (journals (store w1)) =
      Some (Journal.set_editorId (Some (nextId w)) J) /\
    removeEditor (ae_journalId req) w1 = (Ok editor_removed, w2) /\
    store w2 = store w.
Proof.
  intros Hw Hname Hfree Hfresh HJ Hnone.
  destruct (addEditor_run_fresh req firstName w Hw Hname Hfree Hfresh)
    as (w1 & Hrun & Hw1 & Hstore).
  assert (HJ1 : List.find (has_id (Some (ae_journalId req))) (journals (store w1)) =
                Some (Journal.set_editorId (Some (nextId w)) J)).
  { rewrite Hstore. simpl journals. apply find_update_first; [exact HJ|].
    apply find_some in HJ as [_ Hid]. exact Hid. }
  eexists _, w1, _. split; [exact Hrun|]. split; [reflexivity|].
  split; [exact HJ1|].
  split; [exact (removeEditor_run _ w1 _ Hw1 HJ1)|].
  cbn -[has_id]. rewrite Hstore. cbn -[has_id].
  rewrite (remove_first_app_fresh (D:=Auth.t) _ _ (editor_of req firstName w)
             Hfresh eq_refl).
  rewrite update_first_twice by (intros d Hd; exact Hd).
  rewrite (update_first_fixed _ _ _ J HJ).
  - apply store_eta.
  - destruct J; simpl in *. now subst.
Qed.

Definition annals_editor : AddEditorReq :=
  {| ae_journalId := 11; ae_firstName := Some "Eve"; ae_middleName := "";
     ae_lastName := "E"; ae_email := "eve@x.com"; ae_phoneNumber := "999";
     ae_gender := "f" |}.

Lemma addEditor_then_removeEditor_witness :
  healthy sample /\
  exists r w1 w2,
    addEditor annals_editor sample = (Ok r, w1) /\
    removeEditor 11 w1 = (Ok editor_removed, w2) /\
    store w2 = store sample.
Proof.
  split; [reflexivity|].
  destruct (addEditor_then_removeEditor annals_editor "Eve" sample
              (Journal.mk 11 "Annals" "Second" None) eq_refl eq_refl
              fresh_editor_not_taken sample_auths_fresh eq_refl eq_refl)
    as (r & w1 & w2 & Hadd & _ & _ & Hrem & Hsame).
  exists r, w1, w2. auto.
Defined.

Lemma set_store_same w : set_store (store w) w = w.
Proof. now destruct w. Qed.

(** [removeEditor] on a journal that exists deletes the Auth record named
    by its [editorId], sets the [editorId] to null, and leaves articles
    and reviewers alone.  Running it a second time answers success again
    and changes nothing. *)
Theorem removeEditor_removes_editor (journalId : ObjectId) (w : World)
    (k : nat) (J : Journal.t) :
  healthy w ->
  first_doc_of journalId (journals (store w)) k J ->
  exists w',
    removeEditor journalId w = (Ok editor_removed, w') /\
    auths (store w') =
      remove_first (has_id (Journal.editorId J)) (auths (store w)) /\
    journals (store w') = <[k := Journal.set_editorId None J]> (journals (store w)) /\
    articles (store w') = articles (store w) /\
    reviewers (store w') = reviewers (store w) /\
    removeEditor journalId w' = (Ok editor_removed, w').
Proof.
  intros Hw Hfirst. pose proof (find_first_doc _ _ _ _ Hfirst) as HJ.
  eexists. split; [exact (removeEditor_run _ _ _ Hw HJ)|].
  set (w' := set_store _ w).
  split; [reflexivity|]. split; [exact (update_first_doc _ _ _ _ _ Hfirst)|].
  split; [reflexivity|]. split; [reflexivity|].
  assert (HJ' : List.find (has_id (Some journalId)) (journals (store w')) =
                Some (Journal.set_editorId None J)).
  { apply find_update_first; [exact HJ|].
    apply find_some in HJ as [_ Hid]. exact Hid. }
  rewrite (removeEditor_run journalId w' _ Hw HJ').
  apply (f_equal (fun x => (Ok editor_removed, x))).
  transitivity (set_store (store w') w'); [|apply set_store_same].
  apply (f_equal (fun s => set_store s w')).
  change (Journal.editorId (Journal.set_editorId None J)) with (@None ObjectId).
  rewrite remove_first_null.
  rewrite (update_first_fixed _ _ _ _ HJ'); [apply store_eta|reflexivity].
Qed.

Lemma removeEditor_removes_editor_witness :
  healthy sample /\
  exists w',
    removeEditor 10 sample = (Ok editor_removed, w') /\
    auths (store w') =
      [Auth.mk 21 "Rita" "" "R" "rita" "r@x.com" "222" "pw" "f" false true] /\
    removeEditor 10 w' = (Ok editor_removed, w').
Proof.
  split; [reflexivity|].
  destruct (removeEditor_removes_editor 10 sample 0
              (Journal.mk 10 "Journal" "First" (Some 20%N)) eq_refl)
    as (w' & Hrun & Hauths & _ & _ & _ & Hagain).
  - split; [reflexivity|]. split; [reflexivity|]. intros n d' _ Hlt. lia.
  - exists w'. split; [exact Hrun|]. split; [exact Hauths | exact Hagain].
Defined.

(** ** Writes that are not one transaction *)

(** When the store creates the editor's Auth record (first name of ASCII
    characters) and then rejects the update of the journal, [addEditor]
    answers the 404 failure; the Auth record is there all the same and no
    journal names it. *)
Theorem addEditor_not_atomic (req : AddEditorReq) (firstName : string)
    (w : World) (e : Error) (fs : list (option Error)) :
  faults w = None :: None :: None :: Some e :: fs ->
  ae_firstName req = Some firstName ->
  ascii_only firstName = true ->
  ~ taken req (store w) ->
  fresh_id (nextId w) (auths (store w)) ->
  exists w',
    addEditor req w = (Ok (editor_failed e), w') /\
    auths (store w') = auths (store w) ++ [editor_of req firstName w] /\
    journals (store w') = journals (store w).
Proof.
  intros Hf Hname _ [Hemail Hphone]%not_taken_find Hfresh%fresh_id_existsb.
  destruct w as [s fl ni ck rd up zp tm ml]. simpl in *. subst fl.
  unfold addEditor, findOne, defined, Math_random, new_id, save,
    findByIdAndUpdate, findOneAndUpdate, try_catch, docs, put_docs, bind, await,
    modify, get_world, json, ret.
  cbn -[generate_password generate_userName].
  rewrite Hemail. cbn -[generate_password generate_userName].
  rewrite Hphone, Hname. cbn -[generate_password generate_userName].
  rewrite Hfresh. cbn -[generate_password generate_userName].
  eexists. split; [reflexivity|]. split; reflexivity.
Qed.

Lemma addEditor_not_atomic_witness :
  faults (set_faults [None; None; None; Some StoreError] sample) =
    [None; None; None; Some StoreError] /\
  ascii_only "Eve" = true /\
  exists w',
    addEditor annals_editor (set_faults [None; None; None; Some StoreError] sample) =
      (Ok (editor_failed StoreError), w') /\
    auths (store w') =
      auths (store sample) ++ [editor_of annals_editor "Eve" sample] /\
    journals (store w') = journals (store sample).
Proof.
  split; [reflexivity|]. split; [reflexivity|].
  exact (addEditor_not_atomic annals_editor "Eve"
           (set_faults [None; None; None; Some StoreError] sample) StoreError []
           eq_refl eq_refl eq_refl fresh_editor_not_taken sample_auths_fresh).
Defined.

Definition journal_deletion_failed (e : Error) : Response :=
  {| status := 404;
     body := [success false; message "Journal deletion failed"; error e] |}.

(** When the store deletes the journal and then rejects the deletion of
    its editor, [deleteJournal] answers the 404 failure; the journal is
    gone all the same and the editor's Auth record stays. *)
Theorem deleteJournal_not_atomic (journalId : ObjectId) (w : World)
    (J : Journal.t) (editorId : ObjectId) (e : Error) (fs : list (option Error)) :
  faults w = None :: Some e :: fs ->
  List.find (has_id (Some journalId)) (journals (store w)) = Some J ->
  Journal.editorId J = Some editorId ->
  exists w',
    deleteJournal journalId w = (Ok (journal_deletion_failed e), w') /\
    journals (store w') =
      remove_first (has_id (Some journalId)) (journals (store w)) /\
    auths (store w') = auths (store w).
Proof.
  intros Hf HJ He.
  destruct w as [s fl ni ck rd up zp tm ml]. simpl in *. subst fl.
  unfold deleteJournal, findByIdAndDelete, findOneAndDelete, try_catch, docs,
    put_docs, bind, await, modify, get_world, json, ret.
  simpl. rewrite HJ. simpl. rewrite He. simpl.
  eexists. split; [reflexivity|]. split; reflexivity.
Qed.

Lemma deleteJournal_not_atomic_witness :
  faults (set_faults [None; Some StoreError] sample) = [None; Some StoreError] /\
  exists w',
    deleteJournal 10 (set_faults [None; Some StoreError] sample) =
      (Ok (journal_deletion_failed StoreError), w') /\
    journals (store w') = [Journal.mk 11 "Annals" "Second" None] /\
    auths (store w') = auths (store sample).
Proof.
  split; [reflexivity|].
  exact (deleteJournal_not_atomic 10 (set_faults [None; Some StoreError] sample)
           (Journal.mk 10 "Journal" "First" (Some 20%N)) 20 StoreError []
           eq_refl eq_refl eq_refl).
Defined.

(** ** Updating and listing articles *)

Definition article_updated (a : Article.t) : Response :=
  {| status := 200;
     body := [success true; message "Journal article updated successfully";
              data (VArticle a)] |}.

(** A request body with the [_id] and no other field. *)
Definition empty_patch (i : ObjectId) : ArticlePatch :=
  {| ap_id := i; ap_userId := None; ap_title := None; ap_abstract := None;
     ap_keywords := None; ap_file := None; ap_authors := None;
     ap_journalId := None; ap_reviewers := None |}.

Lemma apply_patch_twice p a : apply_patch p (apply_patch p a) = apply_patch p a.
Proof.
  unfold apply_patch. simpl.
  destruct (ap_userId p), (ap_title p), (ap_abstract p), (ap_keywords p),
    (ap_file p), (ap_authors p), (ap_journalId p), (ap_reviewers p); reflexivity.
Qed.

Lemma apply_empty_patch i a : apply_patch (empty_patch i) a = a.
Proof. now destruct a. Qed.

Lemma update_first_same {D} (p : D -> bool) (f g : D -> D) (l : list D) d :
  List.find p l = Some d -> f d = g d ->
  update_first p f l = update_first p g l.
Proof.
  intros Hfind Hfg.
  rewrite <- (update_first_found p f l d Hfind),
          <- (update_first_found p g l d Hfind).
  now rewrite Hfg.
Qed.

Lemma updateArticle_run req w a :
  healthy w ->
  List.find (has_id (Some (ap_id req))) (articles (store w)) = Some a ->
  updateArticle req w =
  (Ok (article_updated (apply_patch req a)),
   with_docs (update_first (has_id (Some (ap_id req))) (apply_patch req)
                (articles (store w))) w).
Proof.
  intros Hw Hfind. unfold updateArticle, try_catch, bind, findByIdAndUpdate.
  rewrite (findOneAndUpdate_healthy (D:=Article.t) _ _ w Hw).
  change (collection (store w)) with (articles (store w)). now rewrite Hfind.
Qed.

(** [updateArticle] answers 404 and changes nothing when the [_id] names
    no article.  Otherwise it answers 200 with the article after the
    update and writes exactly that article in the place of the old one:
    the fields of the body replace the stored ones, the [_id] stays, and
    no other document changes.  Sending the same body again changes
    nothing more, and a body with no field but the [_id] changes nothing
    at all. *)
Theorem updateArticle_patches (req : ArticlePatch) (w : World) :
  healthy w ->
  ((forall a, a ∈ articles (store w) -> Article._id a <> ap_id req) ->
   updateArticle req w = (Ok article_not_found, w)) /\
  (forall k a,
     first_doc_of (ap_id req) (articles (store w)) k a ->
     exists w',
       updateArticle req w = (Ok (article_updated (apply_patch req a)), w') /\
       articles (store w') = <[k := apply_patch req a]> (articles (store w)) /\
       Article._id (apply_patch req a) = Article._id a /\
       journals (store w') = journals (store w) /\
       reviewers (store w') = reviewers (store w) /\
       auths (store w') = auths (store w) /\
       updateArticle req w' = (Ok (article_updated (apply_patch req a)), w') /\
       (req = empty_patch (ap_id req) -> w' = w)).
Proof.
  intros Hw. split.
  - intros Hno. unfold updateArticle, try_catch, bind, findByIdAndUpdate.
    rewrite (findOneAndUpdate_healthy (D:=Article.t) _ _ w Hw).
    change (collection (store w)) with (articles (store w)).
    destruct (List.find _ _) as [a|] eqn:E; [|reflexivity].
    destruct (find_has_id _ _ _ E) as [Hin Hid]. now destruct (Hno a Hin).
  - intros k a Hfirst. pose proof (find_first_doc _ _ _ _ Hfirst) as Hfind.
    eexists. split; [exact (updateArticle_run req w a Hw Hfind)|].
    set (w' := with_docs _ w).
    split; [exact (update_first_doc _ _ _ _ _ Hfirst)|].
    split; [reflexivity|]. do 3 (split; [reflexivity|]).
    assert (Hfind' : List.find (has_id (Some (ap_id req))) (articles (store w')) =
                     Some (apply_patch req a)).
    { apply find_update_first; [exact Hfind|].
      apply find_some in Hfind as [_ Hid]. exact Hid. }
    split.
    + rewrite (updateArticle_run req w' _ Hw Hfind'), apply_patch_twice.
      apply (f_equal (fun x => (Ok (article_updated (apply_patch req a)), x))).
      transitivity (set_store (store w') w'); [|apply set_store_same].
      apply (f_equal (fun s => set_store s w')).
      unfold with_docs. cbn -[has_id apply_patch].
      rewrite update_first_twice by (intros d Hd; exact Hd).
      rewrite (update_first_same _ _ (apply_patch req) _ a Hfind)
        by apply apply_patch_twice.
      reflexivity.
    + intros Hempty. unfold w'. rewrite Hempty.
      rewrite (update_first_fixed _ _ _ a); [apply with_articles_same| |].
      * now rewrite <- Hempty.
      * apply apply_empty_patch.
Qed.

Definition retitle : ArticlePatch :=
  {| ap_id := 2; ap_userId := None; ap_title := Some "New title";
     ap_abstract := None; ap_keywords := None; ap_file := None;
     ap_authors := None; ap_journalId := None; ap_reviewers := None |}.

Lemma updateArticle_patches_witness :
  healthy sample /\
  exists a w',
    updateArticle retitle sample = (Ok (article_updated a), w') /\
    Article.title a = "New title" /\ Article.abstract a = "Abstract" /\
    updateArticle retitle w' = (Ok (article_updated a), w').
Proof.
  split; [reflexivity|].
  destruct (updateArticle_patches retitle sample eq_refl) as [_ Hfound].
  destruct (Hfound 1%nat (sample_article 2 8 ["a@x.com"; "b@x.com"] []))
    as (w' & Hrun & _ & _ & _ & _ & _ & Hagain & _).
  - split; [reflexivity|]. split; [reflexivity|].
    intros [|n] d' Hn Hlt; [|lia]. injection Hn as <-. discriminate.
  - eexists _, w'. split; [exact Hrun|]. split; [reflexivity|].
    split; [reflexivity | exact Hagain].
Defined.

Definition no_journal_article : Response :=
  {| status := 404;
     body := [success false; message "No journal articles found"] |}.

Lemma sublist_filter_bool {A} (p : A -> bool) (l : list A) :
  sublist (List.filter p l) l.
Proof.
  induction l as [|a l IH]; simpl; [constructor|].
  destruct (p a); now constructor.
Qed.

(** [getArticleList] answers the empty-result 404 exactly when no article
    belongs to the journal; otherwise it answers 200 with the articles of
    that journal and no other, in the order of the store. *)
Theorem getArticleList_by_journal (journalId : ObjectId) (w : World) :
  healthy w ->
  (getArticleList journalId w = (Ok no_journal_article, w) <->
   forall a, a ∈ articles (store w) -> Article.journalId a <> journalId) /\
  ((exists a, a ∈ articles (store w) /\ Article.journalId a = journalId) ->
   exists l,
     getArticleList journalId w = (Ok (articles_found l), w) /\
     (forall a, a ∈ l <->
                a ∈ articles (store w) /\ Article.journalId a = journalId) /\
     sublist l (articles (store w))).
Proof.
  intros Hw. unfold getArticleList, try_catch, bind.
  rewrite (find_healthy (D:=Article.t) _ w Hw).
  change (collection (store w)) with (articles (store w)).
  set (found := List.filter _ (articles (store w))).
  assert (Hfound : forall a, a ∈ found <->
                             a ∈ articles (store w) /\ Article.journalId a = journalId).
  { intros a. unfold found. rewrite elem_of_filter_bool. now rewrite N.eqb_eq. }
  assert (Hsub : sublist found (articles (store w))) by apply sublist_filter_bool.
  destruct found as [|a0 found'] eqn:E.
  - simpl. split.
    + split; [|trivial]. intros _ a Ha Hj.
      assert (Hin : a ∈ []) by (apply Hfound; auto). inversion Hin.
    + intros (a & Ha & Hj).
      assert (Hin : a ∈ []) by (apply Hfound; auto). inversion Hin.
  - rewrite <- E in *. replace (length found =? 0)%nat with false by now rewrite E.
    split.
    + split; [discriminate|]. intros Hno. exfalso.
      assert (Hin : a0 ∈ found) by (rewrite E; apply list_elem_of_here).
      apply Hfound in Hin as [Hin Hj]. exact (Hno a0 Hin Hj).
    + intros _. exists found. split; [reflexivity|]. split; [exact Hfound|exact Hsub].
Qed.

(** Articles 1 and 3 of [journal_sample] belong to journal 10, articles 2
    and 4 to journal 11, none to journal 12. *)
Definition journal_sample : World :=
  set_store
    {| articles := [sample_article 1 7 ["a@x.com"] [];
                    Article.mk 2 8 "Other" "Abstract" [] "o.pdf" [] 11 [] 0;
                    sample_article 3 7 [] [];
                    Article.mk 4 9 "Last" "Abstract" [] "l.pdf" [] 11 [] 0];
       journals := journals (store sample);
       reviewers := reviewers (store sample);
       auths := auths (store sample) |} sample.

Lemma getArticleList_by_journal_witness :
  healthy journal_sample /\
  (exists a, a ∈ articles (store journal_sample) /\ Article.journalId a = 10%N) /\
  (exists l,
     getArticleList 10 journal_sample = (Ok (articles_found l), journal_sample) /\
     map Article._id l = [1; 3]%N /\
     (forall a, a ∈ l <->
                a ∈ articles (store journal_sample) /\ Article.journalId a = 10%N) /\
     sublist l (articles (store journal_sample))) /\
  (getArticleList 12 journal_sample = (Ok no_journal_article, journal_sample) <->
   forall a, a ∈ articles (store journal_sample) -> Article.journalId a <> 12%N).
Proof.
  assert (Hsome : exists a, a ∈ articles (store journal_sample) /\
                            Article.journalId a = 10%N).
  { eexists. split; [apply list_elem_of_here|reflexivity]. }
  split; [reflexivity|]. split; [exact Hsome|]. split.
  - destruct (proj2 (getArticleList_by_journal 10 journal_sample eq_refl) Hsome)
      as (l & Hrun & Hmem & Hsub).
    exists l. split; [exact Hrun|]. split; [|auto].
    assert (Hl : Ok (articles_found l) =
                 fst (getArticleList 10 journal_sample)) by now rewrite Hrun.
    vm_compute in Hl. injection Hl as ->. reflexivity.
  - exact (proj1 (getArticleList_by_journal 12 journal_sample eq_refl)).
Defined.

(** ** Building an archive, and the timer that deletes it *)

Definition zip_failed (e : Error) : Response :=
  {| status := 404;
     body := [success false; message "Zip file creation failed"; error e] |}.

(** The content of the uploaded file [name], if there is one. *)
Definition uploaded (w : World) (name : string) : option string :=
  option_map snd (List.find (fun f => String.eqb (fst f) name) (upload w)).

(** The name [createZip] gives the archive, and its path. *)
Definition archive_name (w : World) : string :=
  Number_toString (clock w) +:+ ".zip".

Definition staging (name : string) : string := "public/journals/zip/" +:+ name.

Lemma read_files_ok files w :
  (forall f, f ∈ files -> uploaded w f <> None) ->
  exists packed,
    read_files files w = (Ok packed, w) /\
    map fst packed = files /\
    forall f c, (f, c) ∈ packed -> uploaded w f = Some c.
Proof.
  induction files as [|f files IH]; intros Hall.
  - exists []. split; [reflexivity|]. split; [reflexivity|].
    intros f c Hin. inversion Hin.
  - destruct IH as (packed & Hrun & Hnames & Hcontent).
    { intros g Hg. apply Hall. now apply list_elem_of_further. }
    destruct (uploaded w f) as [c|] eqn:Hf;
      [|destruct (Hall f); [apply list_elem_of_here|exact Hf]].
    exists ((f, c) :: packed). split; [|split].
    + simpl. unfold bind at 1, readFileSync, bind at 1, get_world, ret.
      fold (uploaded w f). rewrite Hf. unfold defined, ret, bind. now rewrite Hrun.
    + simpl. now rewrite Hnames.
    + intros g d [[= -> ->]|Hin]%elem_of_cons; auto.
Qed.

Lemma read_files_missing files w :
  (exists f, f ∈ files /\ uploaded w f = None) ->
  read_files files w = (Throw IOError, w).
Proof.
  induction files as [|f files IH]; intros (g & Hg & Hnone); [inversion Hg|].
  simpl. unfold bind at 1, readFileSync, bind at 1, get_world, ret.
  fold (uploaded w f).
  destruct (uploaded w f) as [c|] eqn:Hf; [|reflexivity].
  unfold defined, ret, bind. rewrite IH; [reflexivity|].
  apply elem_of_cons in Hg as [->|Hg]; [congruence|eauto].
Qed.

Lemma createZip_run files packed w :
  healthy w ->
  read_files files w = (Ok packed, w) ->
  exists w',
    createZip files w = (Ok (zip_created (archive_name w)), w') /\
    zip w' = zip w ++ [(archive_name w, packed)] /\
    timers w' = timers w ++ [(60000%N, staging (archive_name w))] /\
    upload w' = upload w /\ store w' = store w.
Proof.
  unfold healthy. intros Hw Hrun. unfold createZip, try_catch.
  unfold bind at 1. unfold bind at 1. rewrite Hrun.
  destruct w as [s fl ni ck rd up zp tm ml]. simpl in Hw. subst fl.
  unfold getTime, bind, await, modify, get_world, json, ret. simpl.
  eexists. split; [reflexivity|]. simpl. repeat split.
Qed.



(** When one of the requested files is not in the upload directory,
    [createZip] answers the 404 failure with the read error and leaves the
    world as it was: nothing is staged and no timer is started. *)
Theorem createZip_missing_file (files : list string) (w : World) :
  (exists f, f ∈ files /\ uploaded w f = None) ->
  createZip files w = (Ok (zip_failed IOError), w).
Proof.
  intros Hmissing. unfold createZip, try_catch.
  unfold bind at 1. unfold bind at 1.
  now rewrite (read_files_missing files w Hmissing).
Qed.

Lemma createZip_missing_file_witness :
  (exists f, f ∈ ["a.txt"; "c.txt"] /\ uploaded sample f = None) /\
  createZip ["a.txt"; "c.txt"] sample = (Ok (zip_failed IOError), sample).
Proof.
  assert (Hmissing : exists f, f ∈ ["a.txt"; "c.txt"] /\ uploaded sample f = None).
  { exists "c.txt". split; [|reflexivity].
    apply list_elem_of_further, list_elem_of_here. }
  split; [exact Hmissing|].
  exact (createZip_missing_file ["a.txt"; "c.txt"] sample Hmissing).
Defined.

(** [fs.unlinkSync(path)] on the staging directory: it throws when the
    file is not there. *)
Definition unlinkSync (path : string) : M unit :=
  w <- get_world ;;
  if existsb (fun z => String.eqb (staging (fst z)) path) (zip w)
  then modify (set_zip (remove_first (fun z => String.eqb (staging (fst z)) path)
                                     (zip w)))
  else throw IOError.

(** The callback of the oldest pending timer runs:
    [() => { fs.unlinkSync(`public/journals/zip/${filename}.zip`); }].
    Nothing surrounds it, so what it throws is caught by nothing. *)
Definition timer_fires : M unit :=
  w <- get_world ;;
  match timers w with
  | [] => ret tt
  | (_, path) :: pending => modify (set_timers pending) ;;; unlinkSync path
  end.

Lemma staging_inj a b : staging a = staging b -> a = b.
Proof. unfold staging. intros H. cbn in H. now injection H. Qed.

(** After a successful [createZip] the archive is in the staging
    directory, and once the timer has fired it is gone: the directory is
    as it was before the request. *)
Theorem createZip_then_timer (files : list string) (w : World) :
  healthy w ->
  (forall f, f ∈ files -> uploaded w f <> None) ->
  timers w = [] ->
  (forall z, z ∈ zip w -> fst z <> archive_name w) ->
  exists packed w1 w2,
    createZip files w = (Ok (zip_created (archive_name w)), w1) /\
    (archive_name w, packed) ∈ zip w1 /\
    timer_fires w1 = (Ok tt, w2) /\
    zip w2 = zip w /\ timers w2 = [].
Proof.
  intros Hw Hall Htimers Hnew.
  destruct (read_files_ok files w Hall) as (packed & Hread & _ & _).
  destruct (createZip_run files packed w Hw Hread)
    as (w1 & Hrun & Hzip & Htm & _).
  exists packed, w1.

  assert (Hnone : forall l : list (string * list (string * string)),
             (forall z, z ∈ l -> fst z <> archive_name w) ->
             existsb (fun z => String.eqb (staging (fst z)) (staging (archive_name w)))
                     (l ++ [(archive_name w, packed)]) = true /\
             remove_first
               (fun z => String.eqb (staging (fst z)) (staging (archive_name w)))
               (l ++ [(archive_name w, packed)]) = l).
  { induction l as [|z l IH]; intros Hl.
    - cbn [app existsb remove_first fst]. now rewrite String.eqb_refl.
    - destruct IH as [IH1 IH2].
      { intros y Hy. apply Hl. now apply list_elem_of_further. }
      assert (Hz : String.eqb (staging (fst z)) (staging (archive_name w)) = false).
      { apply String.eqb_neq. intros Heq%staging_inj.
        exact (Hl z (list_elem_of_here _ _) Heq). }
      cbn [app existsb remove_first]. rewrite Hz, IH1, IH2. auto. }
  destruct (Hnone (zip w) Hnew) as [Hex Hrem].
  eexists. split; [exact Hrun|]. split.
  { rewrite Hzip. apply elem_of_app. right. apply list_elem_of_here. }
  destruct w1 as [s1 fl1 ni1 ck1 rd1 up1 zp1 tm1 ml1].
  cbn [zip timers] in Hzip, Htm. subst zp1 tm1. rewrite Htimers.
  unfold timer_fires, unlinkSync, bind, modify, get_world, ret.
  cbn -[staging archive_name existsb remove_first]. rewrite Hex.
  split; [reflexivity|].
  cbn -[staging archive_name existsb remove_first]. now rewrite Hrem.
Qed.

Lemma createZip_then_timer_witness :
  healthy sample /\ timers sample = [] /\
  exists packed w1 w2,
    createZip ["a.txt"] sample = (Ok (zip_created "1700000000000.zip"), w1) /\
    ("1700000000000.zip", packed) ∈ zip w1 /\
    timer_fires w1 = (Ok tt, w2) /\ zip w2 = [].
Proof.
  split; [reflexivity|]. split; [reflexivity|].
  destruct (createZip_then_timer ["a.txt"] sample eq_refl)
    as (packed & w1 & w2 & Hrun & Hin & Hfire & Hzip & _).
  - intros f Hf.
    repeat (apply elem_of_cons in Hf as [->|Hf]; [discriminate|]). inversion Hf.
  - reflexivity.
  - intros z Hz. inversion Hz.
  - exists packed, w1, w2. auto.
Defined.



(** ** The ids of a collection stay distinct *)

(** The ids are distinct and were all handed out before [n]. *)
Definition ids_below (n : ObjectId) (ids : list ObjectId) : Prop :=
  NoDup ids /\ Forall (fun i => (i < n)%N) ids.

Lemma ids_below_mono n m ids : (n <= m)%N -> ids_below n ids -> ids_below m ids.
Proof.
  intros Hle [Hnd Hlt]. split; [exact Hnd|].
  eapply Forall_impl; [exact Hlt|]. simpl. intros i Hi. lia.
Qed.

Lemma ids_below_sublist n ids ids' :
  sublist ids' ids -> ids_below n ids -> ids_below n ids'.
Proof.
  intros Hsub [Hnd Hlt]. split.
  - eapply sublist_NoDup; eauto.
  - rewrite Forall_forall in *. intros i Hi. apply Hlt.
    eapply elem_of_sublist; eauto.
Qed.

Lemma ids_below_snoc n ids i :
  ids_below n ids -> (i < n)%N -> i ∉ ids -> ids_below n (ids ++ [i]).
Proof.
  intros [Hnd Hlt] Hi Hnew. split.
  - apply NoDup_app. split; [exact Hnd|]. split; [|apply NoDup_singleton].
    intros x Hx ->%list_elem_of_singleton. contradiction.
  - apply Forall_app. split; [exact Hlt|]. now apply Forall_singleton.
Qed.

Lemma ids_below_new n ids : ids_below n ids -> ids_below (n + 1) (ids ++ [n]).
Proof.
  intros Hok. apply ids_below_snoc; [|lia|].
  - apply (ids_below_mono n); [lia|exact Hok].
  - destruct Hok as [_ Hlt]. intros Hin.
    rewrite Forall_forall in Hlt. specialize (Hlt n Hin). lia.
Qed.

Section Ids.
Context {D : Type} `{Model D}.

Lemma map_ids_remove_first (p : D -> bool) l :
  sublist (map doc_id (remove_first p l)) (map doc_id l).
Proof.
  induction l as [|a l IH]; simpl; [constructor|].
  destruct (p a); simpl; now constructor.
Qed.

Lemma map_ids_update_first (p : D -> bool) (f : D -> D) l :
  (forall d, p d = true -> doc_id (f d) = doc_id d) ->
  map doc_id (update_first p f l) = map doc_id l.
Proof.
  intros Hf. induction l as [|a l IH]; simpl; [trivial|].
  destruct (p a) eqn:Ha; simpl; [now rewrite (Hf a Ha)|now rewrite IH].
Qed.

Lemma map_ids_replace (d : D) l :
  map doc_id (update_first (has_id (Some (doc_id d))) (fun _ => d) l) =
  map doc_id l.
Proof.
  apply map_ids_update_first. intros x Hx. simpl in Hx. now apply N.eqb_eq in Hx.
Qed.

Lemma not_existsb_id (i : ObjectId) l :
  existsb (has_id (Some i)) l = false -> i ∉ map doc_id l.
Proof.
  intros Hex (d & Hd & Hid)%elem_of_map_ids.
  assert (Ht : existsb (has_id (Some i)) l = true).
  { apply existsb_elem_of. exists d. split; [exact Hd|]. simpl. now apply N.eqb_eq. }
  congruence.
Qed.

Lemma find_id_below n (p : D -> bool) l d :
  ids_below n (map doc_id l) -> List.find p l = Some d -> (doc_id d < n)%N.
Proof.
  intros [_ Hlt] [Hin _]%find_some. rewrite Forall_forall in Hlt.
  apply Hlt, list_elem_of_In, in_map, Hin.
Qed.

End Ids.

(** Every collection has distinct ids, all below the next id of the
    generator. *)
Definition distinct_ids (w : World) : Prop :=
  ids_below (nextId w) (map Article._id (articles (store w))) /\
  ids_below (nextId w) (map Journal._id (journals (store w))) /\
  ids_below (nextId w) (map Reviewer._id (reviewers (store w))) /\
  ids_below (nextId w) (map Auth._id (auths (store w))).

Lemma bulk_docs_ids n reqs ids :
  ids_below n ids ->
  ids_below (n + N.of_nat (length reqs))
            (ids ++ map Reviewer._id (bulk_docs n reqs)).
Proof.
  revert n ids. induction reqs as [|req reqs IH]; intros n ids Hok.
  - simpl. rewrite N.add_0_r, app_nil_r. exact Hok.
  - cbn [length bulk_docs map]. rewrite Nat2N.inj_succ.
    replace (n + N.succ (N.of_nat (length reqs)))%N
      with (n + 1 + N.of_nat (length reqs))%N by lia.
    change (Reviewer._id (reviewer_of n req)) with n.
    rewrite cons_middle, app_assoc. apply IH. now apply ids_below_new.
Qed.

(** [m], started where the ids are distinct and [P] holds, ends where
    the ids are distinct, with [Q] of its result; also when it throws. *)
Definition hoare {A} (P : World -> Prop) (m : M A) (Q : A -> World -> Prop) : Prop :=
  forall w, distinct_ids w -> P w ->
            distinct_ids (snd (m w)) /\
            match fst (m w) with Ok a => Q a (snd (m w)) | Throw _ => True end.

Definition any : World -> Prop := fun _ => True.
Definition any_of {A} : A -> World -> Prop := fun _ _ => True.

Section Hoare.
Context {A B : Type}.

Lemma hoare_ret (P : World -> Prop) (a : A) : hoare P (ret a) (fun _ => P).
Proof. intros w Hw HP. now split. Qed.

Lemma hoare_throw (P : World -> Prop) e (Q : A -> World -> Prop) :
  hoare P (throw e) Q.
Proof. intros w Hw HP. now split. Qed.

Lemma hoare_bind (P : World -> Prop) (Q1 : A -> World -> Prop)
    (Q : B -> World -> Prop) (m : M A) (k : A -> M B) :
  hoare P m Q1 -> (forall a, hoare (Q1 a) (k a) Q) -> hoare P (bind m k) Q.
Proof.
  intros Hm Hk w Hw HP. unfold bind. specialize (Hm w Hw HP).
  destruct (m w) as [[a|e] w1]; simpl in *; [|tauto].
  destruct Hm as [Hw1 HQ1]. exact (Hk a w1 Hw1 HQ1).
Qed.

Lemma hoare_try (P : World -> Prop) (Q : A -> World -> Prop) (m : M A)
    (h : Error -> M A) :
  hoare P m Q -> (forall e, hoare any (h e) Q) -> hoare P (try_catch m h) Q.
Proof.
  intros Hm Hh w Hw HP. unfold try_catch. specialize (Hm w Hw HP).
  destruct (m w) as [[a|e] w1]; simpl in *; [exact Hm|].
  destruct Hm as [Hw1 _]. exact (Hh e w1 Hw1 I).
Qed.

Lemma hoare_weaken (P P' : World -> Prop) (Q Q' : A -> World -> Prop) (m : M A) :
  (forall w, P' w -> P w) -> (forall a w, Q a w -> Q' a w) ->
  hoare P m Q -> hoare P' m Q'.
Proof.
  intros HP HQ Hm w Hw HP'. destruct (Hm w Hw (HP w HP')) as [Hw1 H1].
  split; [exact Hw1|]. destruct (fst (m w)); auto.
Qed.

Lemma hoare_any (P : World -> Prop) (Q : A -> World -> Prop) (m : M A) :
  hoare any m Q -> hoare P m Q.
Proof. apply hoare_weaken; [now intros|auto]. Qed.

(** A step that leaves the world alone keeps what is known of it. *)
Lemma hoare_defined (P : World -> Prop) e (o : option A) :
  hoare P (defined e o) (fun _ => P).
Proof. destruct o; [apply hoare_ret|apply hoare_throw]. Qed.

End Hoare.

Lemma hoare_json (P : World -> Prop) st b : hoare P (json st b) any_of.
Proof. intros w Hw HP. now split. Qed.

Lemma hoare_getTime (P : World -> Prop) : hoare P getTime (fun _ => P).
Proof. intros w Hw HP. now split. Qed.

Lemma distinct_set_faults fs w : distinct_ids w -> distinct_ids (set_faults fs w).
Proof. trivial. Qed.

Lemma hoare_await (P : World -> Prop) : hoare P await any_of.
Proof.
  intros w Hw _. unfold await.
  destruct (faults w) as [|[e|] fs]; simpl; (split; [exact Hw|exact I]).
Qed.

Lemma hoare_new_id (P : World -> Prop) :
  hoare P new_id (fun i w => (i < nextId w)%N).
Proof.
  intros w (Ha & Hj & Hr & Hu) _. simpl. split; [|lia].
  split; [|split; [|split]];
    (eapply ids_below_mono; [|eassumption]); simpl; lia.
Qed.

(** What the four models have in common for the ids. *)
Class ModelIds (D : Type) `{Model D} := {
  ids_get : forall w,
    distinct_ids w -> ids_below (nextId w) (map doc_id (collection (store w)));
  ids_put : forall w l,
    distinct_ids w -> ids_below (nextId w) (map doc_id l) ->
    distinct_ids (set_store (set_collection l (store w)) w) }.

#[export] Instance Article_ids : ModelIds Article.t.
Proof. split; [now intros w (Ha & _)|]. intros w l (Ha & Hj & Hr & Hu) Hl. now split; [|split; [|split]]. Qed.

#[export] Instance Journal_ids : ModelIds Journal.t.
Proof. split; [now intros w (Ha & Hj & _)|]. intros w l (Ha & Hj & Hr & Hu) Hl. now split; [|split; [|split]]. Qed.

#[export] Instance Reviewer_ids : ModelIds Reviewer.t.
Proof. split; [now intros w (Ha & Hj & Hr & _)|]. intros w l (Ha & Hj & Hr & Hu) Hl. now split; [|split; [|split]]. Qed.

#[export] Instance Auth_ids : ModelIds Auth.t.
Proof. split; [now intros w (Ha & Hj & Hr & Hu)|]. intros w l (Ha & Hj & Hr & Hu) Hl. now split; [|split; [|split]]. Qed.

Section HoareMongoose.
Context {D : Type} `{ModelIds D}.

(** What a lookup returns is a document of the collection: its id is
    below the next one. *)
Definition known (o : option D) (w : World) : Prop :=
  forall d, o = Some d -> (doc_id d < nextId w)%N.

Lemma hoare_find (P : World -> Prop) (p : D -> bool) : hoare P (find p) any_of.
Proof.
  intros w Hw _. unfold find, docs, bind, await, get_world, ret.
  destruct (faults w) as [|[e|] fs]; simpl; (split; [exact Hw|exact I]).
Qed.

Lemma hoare_findOne (P : World -> Prop) (p : D -> bool) :
  hoare P (findOne p) known.
Proof.
  intros w Hw _. unfold findOne, docs, bind, await, get_world, ret.
  pose proof (ids_get w Hw) as Hids.
  destruct (faults w) as [|[e|] fs]; simpl; (split; [exact Hw|]); trivial;
    intros d Hd; exact (find_id_below _ _ _ _ Hids Hd).
Qed.

Lemma hoare_findOneAndDelete (P : World -> Prop) (p : D -> bool) :
  hoare P (findOneAndDelete p) any_of.
Proof.
  intros w Hw _. unfold findOneAndDelete, docs, put_docs, bind, await, modify,
    get_world, ret.
  assert (Hput : forall w', distinct_ids w' ->
                            distinct_ids (set_store (set_collection
                              (remove_first p (collection (store w'))) (store w')) w')).
  { intros w' Hw'. apply ids_put; [exact Hw'|].
    eapply ids_below_sublist; [apply map_ids_remove_first|]. now apply ids_get. }
  destruct (faults w) as [|[e|] fs] eqn:Hf; simpl.
  - destruct (List.find p (collection (store w))); simpl; (split; [|exact I]);
      [exact (Hput w Hw)|exact Hw].
  - split; [exact Hw|exact I].
  - destruct (List.find p (collection (store w))); simpl; (split; [|exact I]);
      [exact (Hput (set_faults fs w) Hw)|exact Hw].
Qed.

Lemma hoare_findOneAndUpdate (P : World -> Prop) (p : D -> bool) (f : D -> D) :
  (forall d, doc_id (f d) = doc_id d) ->
  hoare P (findOneAndUpdate p f) any_of.
Proof.
  intros Hid w Hw _. unfold findOneAndUpdate, docs, put_docs, bind, await, modify,
    get_world, ret.
  assert (Hput : forall w', distinct_ids w' ->
                            distinct_ids (set_store (set_collection
                              (update_first p f (collection (store w'))) (store w')) w')).
  { intros w' Hw'. apply ids_put; [exact Hw'|].
    rewrite map_ids_update_first by auto. now apply ids_get. }
  destruct (faults w) as [|[e|] fs] eqn:Hf; simpl.
  - destruct (List.find p (collection (store w))); simpl; (split; [|exact I]);
      [exact (Hput w Hw)|exact Hw].
  - split; [exact Hw|exact I].
  - destruct (List.find p (collection (store w))); simpl; (split; [|exact I]);
      [exact (Hput (set_faults fs w) Hw)|exact Hw].
Qed.

Lemma hoare_save (d : D) :
  hoare (fun w => (doc_id d < nextId w)%N) (save d) any_of.
Proof.
  intros w Hw Hd. unfold save, docs, put_docs, bind, await, modify, get_world, ret.
  assert (Hput : forall w', distinct_ids w' -> (doc_id d < nextId w')%N ->
             distinct_ids
               (set_store (set_collection
                  (if existsb (has_id (Some (doc_id d))) (collection (store w'))
                   then update_first (has_id (Some (doc_id d))) (fun _ => d)
                          (collection (store w'))
                   else collection (store w') ++ [d]) (store w')) w')).
  { intros w' Hw' Hd'. pose proof (ids_get w' Hw') as Hids.
    apply ids_put; [exact Hw'|].
    destruct (existsb _ _) eqn:Hex.
    - now rewrite map_ids_replace.
    - rewrite map_app. simpl. apply ids_below_snoc; [exact Hids|exact Hd'|].
      now apply not_existsb_id. }
  destruct (faults w) as [|[e|] fs] eqn:Hf; simpl.
  - specialize (Hput w Hw Hd).
    destruct (existsb _ _); simpl; (split; [exact Hput|exact I]).
  - split; [exact Hw|exact I].
  - specialize (Hput (set_faults fs w) Hw Hd).
    destruct (existsb _ _); simpl; (split; [exact Hput|exact I]).
Qed.

End HoareMongoose.

Lemma hoare_ret_any {A} (P : World -> Prop) (a : A) : hoare P (ret a) any_of.
Proof. intros w Hw HP. now split. Qed.

Lemma hoare_get_world (P : World -> Prop) : hoare P get_world (fun _ => P).
Proof. intros w Hw HP. now split. Qed.

Lemma hoare_modify (P : World -> Prop) (f : World -> World) :
  (forall w, distinct_ids w -> distinct_ids (f w)) -> hoare P (modify f) any_of.
Proof. intros Hf w Hw HP. split; [exact (Hf w Hw)|exact I]. Qed.

Lemma hoare_Math_random (P : World -> Prop) : hoare P Math_random any_of.
Proof. intros w Hw HP. split; [exact Hw|exact I]. Qed.

Lemma hoare_read_files (P : World -> Prop) files :
  hoare P (read_files files) any_of.
Proof.
  revert P. induction files as [|f files IH]; intros P; simpl.
  - apply hoare_ret_any.
  - unfold readFileSync.
    eapply hoare_bind;
      [eapply hoare_bind; [apply hoare_get_world|intros ?; apply hoare_defined]|].
    intros c. eapply hoare_bind; [apply IH|]. intros rest. apply hoare_ret_any.
Qed.

Lemma hoare_new_reviewers (P : World -> Prop) reqs :
  hoare P (new_reviewers reqs)
        (fun ds w => ids_below (nextId w)
                       (map Reviewer._id (reviewers (store w)) ++
                        map Reviewer._id ds)).
Proof.
  intros w (Ha & Hj & Hr & Hu) _. rewrite new_reviewers_run. simpl.
  split; [|now apply bulk_docs_ids].
  split; [|split; [|split]];
    (eapply ids_below_mono; [|eassumption]); simpl; lia.
Qed.

Lemma hoare_insertMany (ds : list Reviewer.t) :
  hoare (fun w => ids_below (nextId w)
                    (map Reviewer._id (reviewers (store w)) ++ map Reviewer._id ds))
        (insertMany ds) any_of.
Proof.
  intros w Hw Hds. unfold insertMany, docs, put_docs, bind, await, modify,
    get_world, ret.
  destruct Hw as (Ha & Hj & Hr & Hu).
  destruct (faults w) as [|[e|] fs]; simpl; (split; [|exact I]);
    (split; [|split; [|split]]); simpl; rewrite ?map_app; assumption.
Qed.

Ltac hoare_save_step :=
  eapply hoare_bind;
  [ eapply hoare_weaken; [| |apply hoare_save];
    [ intros ? HP; first [exact HP | exact (HP _ eq_refl)]
    | intros ? ? HQ; exact HQ ]
  | intros ? ].

Ltac hoare_step :=
  cbv beta zeta;
  match goal with
  | |- hoare _ (try_catch _ _) _ => apply hoare_try; [|intros ?]
  | |- hoare _ (json _ _) _ => apply hoare_json
  | |- hoare _ (ret _) any_of => apply hoare_ret_any
  | |- hoare _ (bind await _) _ => eapply hoare_bind; [apply hoare_await|intros ?]
  | |- hoare _ (bind get_world _) _ =>
      eapply hoare_bind; [apply hoare_get_world|intros ?]
  | |- hoare _ (bind getTime _) _ =>
      eapply hoare_bind; [apply hoare_getTime|intros ?]
  | |- hoare _ (bind new_id _) _ =>
      eapply hoare_bind; [apply hoare_new_id|intros ?]
  | |- hoare _ (bind Math_random _) _ =>
      eapply hoare_bind; [apply hoare_Math_random|intros ?]
  | |- hoare _ (bind (defined _ _) _) _ =>
      eapply hoare_bind; [apply hoare_defined|intros ?]
  | |- hoare _ (bind (find _) _) _ =>
      eapply hoare_bind; [apply hoare_find|intros ?]
  | |- hoare _ (bind (findOne _) _) _ =>
      eapply hoare_bind; [apply hoare_findOne|intros ?]
  | |- hoare _ (bind (findById _) _) _ =>
      eapply hoare_bind; [apply hoare_findOne|intros ?]
  | |- hoare _ (bind (findByIdAndDelete _) _) _ =>
      eapply hoare_bind; [apply hoare_findOneAndDelete|intros ?]
  | |- hoare _ (bind (findOneAndUpdate _ _) _) _ =>
      eapply hoare_bind;
      [apply hoare_findOneAndUpdate; intros []; reflexivity|intros ?]
  | |- hoare _ (bind (findByIdAndUpdate _ _) _) _ =>
      eapply hoare_bind;
      [apply hoare_findOneAndUpdate; intros []; reflexivity|intros ?]
  | |- hoare _ (bind (save _) _) _ => hoare_save_step
  | |- hoare _ (bind (read_files _) _) _ =>
      eapply hoare_bind; [apply hoare_read_files|intros ?]
  | |- hoare _ (bind (modify _) _) _ =>
      eapply hoare_bind;
      [apply hoare_modify; intros ? Hd; exact Hd|intros ?]
  | |- hoare _ (bind (new_reviewers _) _) _ =>
      eapply hoare_bind; [apply hoare_new_reviewers|intros ?]
  | |- hoare _ (bind (insertMany _) _) _ =>
      eapply hoare_bind; [apply hoare_insertMany|intros ?]
  | |- hoare _ (bind (transporter_sendMail _) _) _ => unfold transporter_sendMail
  | |- hoare _ (bind (json _ _) _) _ =>
      eapply hoare_bind; [apply hoare_json|intros ?]
  | |- hoare _ (bind (try_catch _ _) _) _ =>
      eapply (hoare_bind _ any_of); [apply hoare_try; [|intros ?]|intros ?]
  | |- hoare _ (bind (match ?x with _ => _ end) _) _ =>
      eapply (hoare_bind _ any_of); [destruct x|intros ?]
  | |- hoare _ (bind (bind _ _) _) _ => eapply hoare_bind; [|intros ?]
  | |- hoare _ (ret _) _ => first [apply hoare_ret_any|apply hoare_ret]
  | |- hoare _ (match ?x with _ => _ end) _ => destruct x
  end.

(** Each handler leaves the ids of every collection distinct, and below
    the next id, if they were so before: on every run, whichever calls
    are rejected. *)
Lemma handle_hoare c : hoare any (handle c) any_of.
Proof.
  destruct c; simpl;
    unfold addArticle, getArticle, sendMail, getJournalList, addJournal,
      deleteJournal, getArticleList, updateArticle, addReviewer, addBulkReviewer,
      getReviewerList, getReviewArticles, updateReview, deleteReviewer, createZip,
      addEditor, removeEditor;
    repeat hoare_step.
Qed.

(** Every handler keeps the ids of each collection distinct: when the
    ids of the articles, of the journals, of the reviewers and of the Auth
    records are distinct and below the next id before a call, they are so
    after it, whatever the request and whichever calls are rejected. *)
Theorem handlers_keep_ids_distinct (c : Call) (w : World) :
  distinct_ids w -> distinct_ids (snd (handle c w)).
Proof. intros Hw. exact (proj1 (handle_hoare c w Hw I)). Qed.

Lemma sample_distinct_ids : distinct_ids sample.
Proof.
  split; [|split; [|split]]; (split; [|repeat constructor]);
    apply (bool_decide_unpack _); vm_compute; exact I.
Qed.

Lemma handlers_keep_ids_distinct_witness :
  distinct_ids sample /\
  distinct_ids (snd (handle (AddBulkReviewer [new_reviewer; new_reviewer])
                            (set_faults [None; Some StoreError] sample))).
Proof.
  split; [exact sample_distinct_ids|].
  exact (handlers_keep_ids_distinct _ (set_faults [None; Some StoreError] sample)
           sample_distinct_ids).
Defined.


(** Calls handled one after the other. *)
Fixpoint serve (calls : list Call) (w : World) : World :=
  match calls with
  | [] => w
  | c :: calls' => serve calls' (snd (handle c w))
  end.

(** From a store whose ids are distinct, calls handled one after the
    other only reach stores whose ids are distinct. *)
Lemma serve_keeps_ids_distinct calls w :
  distinct_ids w -> distinct_ids (serve calls w).
Proof.
  revert w. induction calls as [|c calls IH]; intros w Hw; [exact Hw|].
  simpl. apply IH. exact (proj1 (handle_hoare c w Hw I)).
Qed.

(** ** The roster after a reviewer is deleted *)

Definition reviewers_listed (l : list Reviewer.t) : Response :=
  {| status := 200;
     body := [success true; message "Reviewer data retrieved successfully";
              data (VReviewers l)] |}.

Lemma filter_true {A} (l : list A) : List.filter (fun _ => true) l = l.
Proof. induction l as [|a l IH]; simpl; [trivial|now rewrite IH]. Qed.

(** After [deleteReviewer] has deleted a reviewer, [getReviewerList]
    answers 200 with a roster that holds no reviewer with that id and
    holds every other reviewer of before. *)
Theorem deleteReviewer_then_getReviewerList (reviewerId : ObjectId) (w : World)
    (R : Reviewer.t) :
  healthy w ->
  NoDup (map Reviewer._id (reviewers (store w))) ->
  List.find (has_id (Some reviewerId)) (reviewers (store w)) = Some R ->
  exists w' l,
    deleteReviewer reviewerId w = (Ok reviewer_deleted, w') /\
    getReviewerList w' = (Ok (reviewers_listed l), w') /\
    (forall r, r ∈ l <-> r ∈ reviewers (store w) /\ Reviewer._id r <> reviewerId) /\
    sublist l (reviewers (store w)).
Proof.
  intros Hw Hids Hfind. eexists _, _.
  split; [exact (deleteReviewer_run _ _ _ Hw Hfind)|].
  set (w' := set_store _ w).
  split.
  { unfold getReviewerList, try_catch, bind.
    rewrite (find_healthy (D:=Reviewer.t) _ w' Hw). simpl.
    now rewrite filter_true. }
  split.
  - intros r. split.
    + intros Hr. split; [exact (elem_of_remove_first _ _ _ Hr)|].
      exact (remove_first_gone (D:=Reviewer.t) _ _ _ Hids Hr).
    + intros [Hr Hne]. exact (remove_first_others (D:=Reviewer.t) _ _ _ Hr Hne).
  - clear. induction (reviewers (store w)) as [|a l IH]; simpl; [constructor|].
    destruct (_ =? _)%N; now constructor.
Qed.

Lemma deleteReviewer_then_getReviewerList_witness :
  healthy sample /\
  exists w' l,
    deleteReviewer 30 sample = (Ok reviewer_deleted, w') /\
    getReviewerList w' = (Ok (reviewers_listed l), w') /\
    forall r, r ∈ l <-> r ∈ reviewers (store sample) /\ Reviewer._id r <> 30%N.
Proof.
  split; [reflexivity|].
  destruct (deleteReviewer_then_getReviewerList 30 sample
              (Reviewer.mk 30 "Rita" "R" "r@x.com" "X") eq_refl)
    as (w' & l & Hdel & Hlist & Hmem & _).
  - apply (bool_decide_unpack _). vm_compute. exact I.
  - reflexivity.
  - exists w', l. auto.
Defined.
